(** * LocalSearchServer: a shallow embedding of
    src/tools/impl/web_search/LocalSearch.js

  The class drives a headless browser (Playwright) to load a Bing or Baidu
  result page, reads the result entries out of the page with cheerio, and
  keeps the last answer.  The embedding has these layers:

  - [JsString]: JavaScript strings as sequences of UTF-16 code units, with
    the string methods the class calls;
  - [Cheerio]: the document tree and the selections the two parsers make;
  - [Parsers]: [parseBingSearchResults] and [parseBaiduSearchResults];
  - [Server]: the instance fields and the methods, written in a small
    state-and-exception monad over the outcomes of the Playwright calls;
  - [Interleaving]: search calls as coroutines that are suspended at their
    [await]s, for the properties that speak about overlapping calls;
  - [Notions]: what the statements need besides the code (example pages
    and browsers, invariants, the tiers of a Bing entry).

  The properties follow, numbered C1 to C10 as in the specification's
  list of claims. *)

From Stdlib Require Import List ZArith NArith Bool String Ascii Lia.
Import ListNotations.

Set Implicit Arguments.

(* ================================================================== *)
(** * JavaScript strings *)

Module JsString.

(** A string is its sequence of UTF-16 code units. *)
Definition jsstring := list N.

(** An ASCII literal of the source. *)
Definition lit (s : string) : jsstring :=
  map N_of_ascii (list_ascii_of_string s).

Definition eqb (a b : jsstring) : bool :=
  if list_eq_dec N.eq_dec a b then true else false.

(** Truthiness of a string: [''] is falsy. *)
Definition truthy (s : jsstring) : bool :=
  match s with [] => false | _ :: _ => true end.

(** Truthiness of [string | undefined]. *)
Definition truthy_opt (s : option jsstring) : bool :=
  match s with Some t => truthy t | None => false end.

(** White space of ECMAScript ([WhiteSpace] and [LineTerminator]): what
    [String.prototype.trim] strips and what [\s] matches. *)
Definition is_ws (c : N) : bool :=
  ((9 <=? c) && (c <=? 13) || (c =? 32) || (c =? 160) || (c =? 5760)
   || (8192 <=? c) && (c <=? 8202)
   || (c =? 8232) || (c =? 8233) || (c =? 8239) || (c =? 8287)
   || (c =? 12288) || (c =? 65279))%N.

Fixpoint drop_ws (s : jsstring) : jsstring :=
  match s with
  | c :: r => if is_ws c then drop_ws r else s
  | [] => []
  end.

(** [s.trim()] *)
Definition trim (s : jsstring) : jsstring :=
  rev (drop_ws (rev (drop_ws s))).

(** [s.replace(/\s+/g, ' ')]: [in_run] tells that the code unit before
    was white space, already replaced. *)
Fixpoint collapse (in_run : bool) (s : jsstring) : jsstring :=
  match s with
  | [] => []
  | c :: r =>
      if is_ws c
      then (if in_run then collapse true r else 32%N :: collapse true r)
      else c :: collapse false r
  end.

Definition replace_ws_runs (s : jsstring) : jsstring := collapse false s.

(** [parts.join(sep)] *)
Fixpoint join (sep : jsstring) (parts : list jsstring) : jsstring :=
  match parts with
  | [] => []
  | [p] => p
  | p :: rest => p ++ sep ++ join sep rest
  end.

(** The white-space separated tokens of a string (a [class] attribute). *)
Fixpoint tokens_from (cur : jsstring) (s : jsstring) : list jsstring :=
  match s with
  | [] => match cur with [] => [] | _ => [rev cur] end
  | c :: r =>
      if is_ws c
      then match cur with
           | [] => tokens_from [] r
           | _ => rev cur :: tokens_from [] r
           end
      else tokens_from (c :: cur) r
  end.

Definition tokens (s : jsstring) : list jsstring := tokens_from [] s.

(** [s.toLowerCase()] on the ASCII letters.  Code units outside ASCII are
    left as they are: no character outside ASCII lowercases to one of
    b, a, i, d, u, so the comparison with ['baidu'] in [search] is decided
    as in JavaScript. *)
Definition lower_unit (c : N) : N :=
  if ((65 <=? c) && (c <=? 90))%N then (c + 32)%N else c.

Definition toLowerCase (s : jsstring) : jsstring := map lower_unit s.

(** ** encodeURIComponent *)

Definition hex_digit (d : N) : N :=
  if (d <? 10)%N then (48 + d)%N else (55 + d)%N.

(** [%XX] for one byte. *)
Definition percent (b : N) : jsstring :=
  [37%N; hex_digit (b / 16); hex_digit (b mod 16)].

(** [A-Z a-z 0-9 - _ . ! ~ * ' ( )] are kept. *)
Definition unreserved (c : N) : bool :=
  ((65 <=? c) && (c <=? 90) || (97 <=? c) && (c <=? 122)
   || (48 <=? c) && (c <=? 57)
   || (c =? 45) || (c =? 95) || (c =? 46) || (c =? 33) || (c =? 126)
   || (c =? 42) || (c =? 39) || (c =? 40) || (c =? 41))%N.

Definition utf8 (cp : N) : list N :=
  (if cp <? 128 then [cp]
   else if cp <? 2048 then [192 + cp / 64; 128 + cp mod 64]
   else if cp <? 65536
        then [224 + cp / 4096; 128 + (cp / 64) mod 64; 128 + cp mod 64]
        else [240 + cp / 262144; 128 + (cp / 4096) mod 64;
              128 + (cp / 64) mod 64; 128 + cp mod 64])%N.

Definition is_lead (c : N) : bool := ((55296 <=? c) && (c <=? 56319))%N.
Definition is_trail (c : N) : bool := ((56320 <=? c) && (c <=? 57343))%N.

(** [None] is the [URIError] of a lone surrogate. *)
Fixpoint encodeURIComponent (s : jsstring) : option jsstring :=
  match s with
  | [] => Some []
  | c :: r =>
      if unreserved c then option_map (cons c) (encodeURIComponent r)
      else if is_trail c then None
      else if is_lead c then
        match r with
        | d :: r' =>
            if is_trail d
            then option_map
                   (app (flat_map percent
                           (utf8 ((c - 55296) * 1024 + (d - 56320) + 65536)%N)))
                   (encodeURIComponent r')
            else None
        | [] => None
        end
      else option_map (app (flat_map percent (utf8 c))) (encodeURIComponent r)
  end.

End JsString.

Import JsString.

(* ================================================================== *)
(** * The document tree and cheerio's selections *)

Module Cheerio.

(** What [cheerio.load(html)] builds: text nodes and elements.  An element
    has its (lower-case) tag name, its attributes and its children.
    Comment nodes, which no selector of the class matches and which have no
    text, are left out. *)
#[warnings="-register-all"]
Inductive node : Type :=
| Text (data : jsstring)
| Element (name : string) (attribs : list (string * jsstring))
          (children : list node).

Definition document := list node.

Fixpoint attr_lookup (k : string) (a : list (string * jsstring))
  : option jsstring :=
  match a with
  | [] => None
  | (k', v) :: r => if String.eqb k k' then Some v else attr_lookup k r
  end.

(** A compound selector [tag.class1.class2]; the tag may be missing. *)
Record compound : Type := Compound {
  sel_tag : option string;
  sel_classes : list string
}.

(** A selector is compounds joined by the descendant combinator, the
    outermost first: ['h2 a'] is [[h2; a]]. *)
Definition selector := list compound.

Definition has_class (attribs : list (string * jsstring)) (c : string) : bool :=
  match attr_lookup "class" attribs with
  | Some v => existsb (eqb (lit c)) (tokens v)
  | None => false
  end.

Definition matches (c : compound) (name : string)
           (attribs : list (string * jsstring)) : bool :=
  match sel_tag c with
  | Some t => String.eqb t name
  | None => true
  end && forallb (has_class attribs) (sel_classes c).

(** The head of an element: what a compound selector looks at. *)
Definition head := (string * list (string * jsstring))%type.

(** [outer] lists, innermost first, the compounds still to be found among
    the ancestors [anc] (nearest first).  Taking the nearest ancestor that
    matches loses nothing for a chain of descendant combinators. *)
Fixpoint chain (outer : list compound) (anc : list head) : bool :=
  match outer with
  | [] => true
  | c :: outer' =>
      (fix seek (anc : list head) : bool :=
         match anc with
         | [] => false
         | (n, a) :: up =>
             if matches c n a then chain outer' up else seek up
         end) anc
  end.

Definition matches_sel (s : selector) (anc : list head) (name : string)
           (attribs : list (string * jsstring)) : bool :=
  match rev s with
  | [] => false
  | c :: outer => matches c name attribs && chain outer anc
  end.

(** The elements under a list of nodes that match [s], in document order;
    [anc] are the elements between the context and the nodes. *)
Fixpoint select_in (s : selector) (anc : list head) (n : node) : list node :=
  match n with
  | Text _ => []
  | Element name attribs children =>
      (if matches_sel s anc name attribs then [n] else [])
      ++ flat_map (select_in s ((name, attribs) :: anc)) children
  end.

(** [$(selector)] on the loaded document. *)
Definition select (s : selector) (d : document) : list node :=
  flat_map (select_in s []) d.

(** [$element.find(selector)]: the descendants of the context that match.
    The chain of the selector is looked for among the ancestors up to the
    context and the context itself (css-select resolves it from [:scope],
    which may stand for the outermost compound), not above it: an
    [li.b_algo.b_caption] has the paragraphs of ['.b_caption p']. *)
Definition find1 (s : selector) (context : node) : list node :=
  match context with
  | Text _ => []
  | Element name attribs children =>
      flat_map (select_in s [(name, attribs)]) children
  end.

(** [find] of a selection.  The selections of this program that are
    searched again are single elements or clones. *)
Definition find (s : selector) (sel : list node) : list node :=
  flat_map (find1 s) sel.

(** [.text()]: the text of every node of the selection, concatenated. *)
Fixpoint text1 (n : node) : jsstring :=
  match n with
  | Text d => d
  | Element _ _ children => flat_map text1 children
  end.

Definition text (sel : list node) : jsstring := flat_map text1 sel.

(** [.attr(name)]: the attribute of the first element of the selection,
    [undefined] when there is none. *)
Definition attr (k : string) (sel : list node) : option jsstring :=
  match sel with
  | Element _ a _ :: _ => attr_lookup k a
  | _ => None
  end.

(** [clone.find(c).remove()]: the clone without its descendants that
    match the compound [c]. *)
Fixpoint remove1 (c : compound) (n : node) : node :=
  match n with
  | Text d => Text d
  | Element name attribs children =>
      Element name attribs
        (flat_map
           (fun ch =>
              match ch with
              | Text d => [Text d]
              | Element n' a' _ =>
                  if matches c n' a' then [] else [remove1 c ch]
              end) children)
  end.

Definition remove_found (c : compound) (sel : list node) : list node :=
  map (remove1 c) sel.

End Cheerio.

Import Cheerio.

(* ================================================================== *)
(** * The two result parsers *)

Module Parsers.

(** One entry of [results]: [{ url, title, content }]. *)
Record ExtractedResult : Type := mkResult {
  url : jsstring;
  title : jsstring;
  content : jsstring
}.

Definition nonempty {A : Type} (sel : list A) : bool :=
  match sel with [] => false | _ :: _ => true end.

Definition tag_class (t c : string) : compound := Compound (Some t) [c].
Definition class_only (c : string) : compound := Compound None [c].
Definition tag_only (t : string) : compound := Compound (Some t) [].

(** ['span.news_dt'], the date that Bing puts in front of a snippet. *)
Definition news_dt : compound := tag_class "span" "news_dt".

(** The clone of a paragraph selection, its date spans removed when there
    are any, read as text, trimmed, white space runs made one space. *)
Definition paragraph_text (contentElement : list node) : jsstring :=
  let contentClone := contentElement in
  let dateSpan := find [news_dt] contentClone in
  let contentClone :=
    if nonempty dateSpan then remove_found news_dt contentClone
    else contentClone in
  replace_ws_runs (trim (text contentClone)).

(** The body of [listItems.each]: the [title] attribute when it is a
    non-empty string, else the trimmed text; pushed when not empty. *)
Definition push_item (contents : list jsstring) (item : node) : list jsstring :=
  let text :=
    match attr "title" [item] with
    | Some t => if truthy t then t else trim (text [item])
    | None => trim (text [item])
    end in
  if truthy text then contents ++ [text] else contents.

(** Lines 102-138 of [parseBingSearchResults]: the content of one
    [li.b_algo]. *)
Definition bing_content (element : node) : jsstring :=
  let contentElement := find [tag_class "p" "b_lineclamp3"] [element] in
  if nonempty contentElement then paragraph_text contentElement
  else
    let contentElement := find [class_only "b_caption"; tag_only "p"] [element] in
    if nonempty contentElement then paragraph_text contentElement
    else
      let listItems :=
        find [class_only "b_dList"; class_only "lisn_olitem"; tag_only "span"]
             [element] in
      if nonempty listItems then
        let contents := fold_left push_item listItems [] in
        replace_ws_runs (trim (join (lit " ") contents))
      else [].

Definition bing_title (element : node) : jsstring :=
  trim (text (find [tag_only "h2"; tag_only "a"] [element])).

Definition bing_url (element : node) : option jsstring :=
  attr "href" (find [tag_only "h2"; tag_only "a"] [element]).

(** The body of the [each] over the containers: [results.push] when
    [title && url]; [content || ''] is [content]. *)
Definition bing_visit (results : list ExtractedResult) (element : node)
  : list ExtractedResult :=
  let title := bing_title element in
  let url := bing_url element in
  let content := bing_content element in
  match url with
  | Some u =>
      if truthy title && truthy u
      then results ++ [mkResult u title content]
      else results
  | None => results
  end.

Definition parseBingSearchResults (html : document) : list ExtractedResult :=
  fold_left bing_visit (select [tag_class "li" "b_algo"] html) [].

Definition baidu_title (element : node) : jsstring :=
  let titleElement := find [Compound (Some "h3"%string) ["t"%string]; tag_only "a"] [element] in
  trim (text (remove_found (tag_only "em") titleElement)).

Definition baidu_url (element : node) : option jsstring :=
  attr "href" (find [Compound (Some "h3"%string) ["t"%string]; tag_only "a"] [element]).

Definition baidu_content (element : node) : jsstring :=
  trim (text (find [tag_class "span" "content-right_2s-H4"] [element])).

(** [results.push] when [title && url && content]. *)
Definition baidu_visit (results : list ExtractedResult) (element : node)
  : list ExtractedResult :=
  let title := baidu_title element in
  let url := baidu_url element in
  let content := baidu_content element in
  match url with
  | Some u =>
      if truthy title && truthy u && truthy content
      then results ++ [mkResult u title content]
      else results
  | None => results
  end.

Definition parseBaiduSearchResults (html : document) : list ExtractedResult :=
  fold_left baidu_visit
            (select [Compound (Some "div"%string) ["result"%string; "c-container"%string]] html) [].

End Parsers.

Import Parsers.

(* ================================================================== *)
(** * The server: fields, Playwright outcomes, methods *)

Module Server.

(** [{ query, results }], the value [search] stores and returns. *)
Record SearchResponse : Type := mkResponse {
  resp_query : jsstring;
  resp_results : list ExtractedResult
}.

(** A JavaScript [Map] with string keys: the entries in insertion order. *)
Definition Map (V : Type) := list (jsstring * V).

Fixpoint map_get {V} (k : jsstring) (m : Map V) : option V :=
  match m with
  | [] => None
  | (k', v) :: r => if eqb k k' then Some v else map_get k r
  end.

(** [set] replaces the value of a key that is present, where it stands,
    and appends a new key. *)
Fixpoint map_set {V} (k : jsstring) (v : V) (m : Map V) : Map V :=
  match m with
  | [] => [(k, v)]
  | (k', v') :: r =>
      if eqb k k' then (k, v) :: r else (k', v') :: map_set k v r
  end.

Fixpoint map_delete {V} (k : jsstring) (m : Map V) : Map V :=
  match m with
  | [] => []
  | (k', v') :: r =>
      if eqb k k' then map_delete k r else (k', v') :: map_delete k r
  end.

(** The fields of the class.  Browsers and contexts are Playwright
    objects; an object is named by the number it got when it was made, and
    [allocated] (not a field of the class) counts the objects made so far. *)
Record LocalSearchServer : Type := mkServer {
  browser : option nat;
  contexts : Map nat;
  maxConcurrentPages : Z;
  activePages : Z;
  result : option SearchResponse;
  allocated : nat
}.

(** The field initialisers, for a ceiling [m]; the class has [m = 10]. *)
Definition new_server_with (m : Z) : LocalSearchServer :=
  mkServer None [] m 0 None 0.

Definition new_server : LocalSearchServer := new_server_with 10.

Inductive error : Type :=
| URIError                      (* of encodeURIComponent *)
| Rejected (reason : nat).      (* of a Playwright promise *)

(** What the browser does during one call: each Playwright promise of the
    call either resolves ([None] for the ones without a value) or rejects. *)
Record world : Type := mkWorld {
  w_launch : option error;                     (* chromium.launch *)
  w_newContext : option error;                 (* browser.newContext *)
  w_newPage : option error;                    (* context.newPage *)
  w_goto : jsstring -> option error;           (* page.goto(url) *)
  w_waitForTimeout : option error;             (* page.waitForTimeout(1000) *)
  w_content : jsstring -> document + error;    (* page.content(), loaded *)
  w_pageClose : option error;                  (* page.close *)
  w_contextClose : nat -> option error;        (* context.close *)
  w_browserClose : option error                (* browser.close *)
}.

(** How a call ends: it returns, it throws, or it never leaves the polling
    loop of [waitForPageSlot]. *)
Inductive outcome (A : Type) : Type :=
| Returns (a : A)
| Throws (e : error)
| Waits.

Arguments Throws {A} e.
Arguments Waits {A}.

Definition M (A : Type) : Type :=
  LocalSearchServer -> outcome A * LocalSearchServer.

Definition ret {A} (a : A) : M A := fun s => (Returns a, s).

Definition throw {A} (e : error) : M A := fun s => (Throws e, s).

Definition bind {A B} (c : M A) (k : A -> M B) : M B :=
  fun s =>
    match c s with
    | (Returns a, s') => k a s'
    | (Throws e, s') => (Throws e, s')
    | (Waits, s') => (Waits, s')
    end.

Definition this : M LocalSearchServer := fun s => (Returns s, s).

Definition assign (f : LocalSearchServer -> LocalSearchServer) : M unit :=
  fun s => (Returns tt, f s).

(** The completion of a [try] block, kept while [finally] runs. *)
Definition attempt {A} (c : M A) : M (A + error) :=
  fun s =>
    match c s with
    | (Returns a, s') => (Returns (inl a), s')
    | (Throws e, s') => (Returns (inr e), s')
    | (Waits, s') => (Waits, s')
    end.

Definition resume {A} (r : A + error) : M A :=
  match r with inl a => ret a | inr e => throw e end.

(** A promise without a value. *)
Definition settle (r : option error) : M unit :=
  match r with None => ret tt | Some e => throw e end.

Declare Scope js_scope.
Delimit Scope js_scope with js.
Notation "x <- c ;; k" := (bind c (fun x => k))
  (at level 61, c at next level, right associativity) : js_scope.
Notation "c ;; k" := (bind c (fun _ => k))
  (at level 61, right associativity) : js_scope.
Local Open Scope js_scope.

Definition set_browser (b : option nat) (s : LocalSearchServer) :=
  mkServer b (contexts s) (maxConcurrentPages s) (activePages s) (result s)
           (allocated s).

Definition set_contexts (m : Map nat) (s : LocalSearchServer) :=
  mkServer (browser s) m (maxConcurrentPages s) (activePages s) (result s)
           (allocated s).

Definition set_activePages (n : Z) (s : LocalSearchServer) :=
  mkServer (browser s) (contexts s) (maxConcurrentPages s) n (result s)
           (allocated s).

Definition set_result (r : option SearchResponse) (s : LocalSearchServer) :=
  mkServer (browser s) (contexts s) (maxConcurrentPages s) (activePages s) r
           (allocated s).

(** A new Playwright object. *)
Definition make_object : M nat :=
  fun s =>
    (Returns (allocated s),
     mkServer (browser s) (contexts s) (maxConcurrentPages s) (activePages s)
              (result s) (S (allocated s))).

(** The listener of ['disconnected']. *)
Definition on_disconnected (s : LocalSearchServer) : LocalSearchServer :=
  set_contexts [] (set_browser None s).

(** The listener of ['close'] that [getOrCreateContext(uid)] registers. *)
Definition on_close (uid : jsstring) (s : LocalSearchServer) : LocalSearchServer :=
  set_contexts (map_delete uid (contexts s)) s.

Definition initializeBrowser (w : world) : M nat :=
  s <- this ;;
  match browser s with
  | None =>
      settle (w_launch w) ;;
      b <- make_object ;;
      assign (set_browser (Some b)) ;;
      ret b
  | Some b => ret b
  end.

Definition getOrCreateContext (w : world) (uid : jsstring) : M nat :=
  s <- this ;;
  match map_get uid (contexts s) with
  | Some context => ret context
  | None =>
      _ <- initializeBrowser w ;;
      settle (w_newContext w) ;;
      context <- make_object ;;
      s <- this ;;
      assign (set_contexts (map_set uid context (contexts s))) ;;
      ret context
  end.

(** With no other call running nothing changes [activePages] between two
    polls, so the loop is left at its first test or never. *)
Definition waitForPageSlot : M unit :=
  fun s =>
    if (activePages s >=? maxConcurrentPages s)%Z then (Waits, s)
    else (Returns tt, set_activePages (activePages s + 1) s).

Definition releasePageSlot : M unit :=
  s <- this ;; assign (set_activePages (activePages s - 1)).

(** A page of the call; [page] stays [undefined] when [newPage] rejects. *)
Inductive Page : Type := ThePage.

(** [#openUrlInSearchWindow]: the [try] block is run to its completion
    [r], then the [finally] block, then [r] is resumed. *)
Definition openUrlInSearchWindow (w : world) (uid url : jsstring) : M document :=
  waitForPageSlot ;;
  _ <- getOrCreateContext w uid ;;
  page <- attempt (settle (w_newPage w) ;; ret ThePage) ;;
  r <- match page with
       | inl _ =>
           attempt (settle (w_goto w url) ;;
                    settle (w_waitForTimeout w) ;;
                    resume (w_content w url))
       | inr e => ret (inr e)
       end ;;
  match page with
  | inl _ => settle (w_pageClose w)
  | inr _ => ret tt
  end ;;
  releasePageSlot ;;
  resume r.

(** The [options] argument of [search]; a key that is absent is [None]. *)
Record options : Type := mkOptions {
  opt_uid : option jsstring;
  opt_max_results : option Z;
  opt_engine : option jsstring
}.

Definition no_options : options := mkOptions None None None.

Record requestOptions : Type := mkRequest {
  uid : jsstring;
  max_results : Z;
  engine : jsstring;
  query : jsstring
}.

Definition or_default {A} (o : option A) (d : A) : A :=
  match o with Some a => a | None => d end.

(** [{ ...defaultOptions, ...options, query }] *)
Definition merge (query : jsstring) (o : options) : requestOptions :=
  mkRequest (or_default (opt_uid o) (lit "default"))
            (or_default (opt_max_results o) 5%Z)
            (or_default (opt_engine o) (lit "bing"))
            query.

(** [a.slice(0, end)] for an integer [end]: a negative [end] counts from
    the end of the array. *)
Definition slice0 {A} (final : Z) (a : list A) : list A :=
  let len := Z.of_nat (List.length a) in
  let k := if (final <? 0)%Z then Z.max (len + final) 0 else Z.min final len in
  firstn (Z.to_nat k) a.

Definition is_baidu (r : requestOptions) : bool :=
  eqb (toLowerCase (engine r)) (lit "baidu").

Definition baidu_prefix : jsstring := lit "https://www.baidu.com/s?wd=".
Definition bing_prefix : jsstring := lit "https://www.bing.com/search?q=".

(** A template literal around [encodeURIComponent(query)]. *)
Definition search_url (prefix query : jsstring) : M jsstring :=
  match encodeURIComponent query with
  | Some q => ret (prefix ++ q)
  | None => throw URIError
  end.

(** [search]: the [catch] logs the error and throws it again. *)
Definition search (w : world) (query : jsstring) (o : options)
  : M SearchResponse :=
  let requestOptions := merge query o in
  results <-
    (if is_baidu requestOptions then
       url <- search_url baidu_prefix (Server.query requestOptions) ;;
       html <- openUrlInSearchWindow w (uid requestOptions) url ;;
       ret (parseBaiduSearchResults html)
     else
       url <- search_url bing_prefix (Server.query requestOptions) ;;
       html <- openUrlInSearchWindow w (uid requestOptions) url ;;
       ret (parseBingSearchResults html)) ;;
  let response :=
    mkResponse (Server.query requestOptions)
               (slice0 (max_results requestOptions) results) in
  assign (set_result (Some response)) ;;
  ret response.

Definition newline : jsstring := [10%N].

(** The template literal of one result in [formatContent]. *)
Definition format_item (item : ExtractedResult) : jsstring :=
  lit "URL: " ++ url item ++ newline ++ lit "Title: " ++ title item ++ newline
  ++ lit "content: " ++ content item ++ newline.

Definition formatContent : M jsstring :=
  s <- this ;;
  match result s with
  | None => ret []
  | Some r =>
      let list := map format_item (resp_results r) in
      ret (lit "Query: " ++ resp_query r ++ newline
           ++ join (lit "======" ++ newline ++ lit "======") list)
  end.

Definition formatJSON : M (list ExtractedResult) :=
  s <- this ;;
  match result s with
  | None => ret []
  | Some r => ret (resp_results r)
  end.

(** [await context.close()] in [cleanup]; the context fires ['close'] for
    the uid it was made for, which is the key it is stored under. *)
Definition context_close (w : world) (uid : jsstring) (context : nat) : M unit :=
  settle (w_contextClose w context) ;; assign (on_close uid).

(** The [for ... of this.contexts.values()] loop.  A listener deletes the
    entry just visited, the iterator goes on with the next one. *)
Fixpoint close_each (w : world) (entries : Map nat) : M unit :=
  match entries with
  | [] => ret tt
  | (uid, context) :: rest => context_close w uid context ;; close_each w rest
  end.

Definition cleanup (w : world) : M unit :=
  s <- this ;;
  close_each w (contexts s) ;;
  s <- this ;;
  match browser s with
  | Some _ =>
      settle (w_browserClose w) ;;
      assign on_disconnected ;;
      assign (set_browser None)
  | None => ret tt
  end ;;
  assign (set_contexts []) ;;
  assign (set_activePages 0) ;;
  assign (set_result None).

End Server.

(* ================================================================== *)
(** * Overlapping calls *)

Module Interleaving.

Import Server.
Local Open Scope js_scope.

(** Where a [search] call is suspended.  JavaScript runs one call at a
    time and switches between calls only at an [await]; every point below
    is an [await] of the call (the timer of the polling loop for the first
    one), and what a call does between two of them is one step.  A call
    may be resumed at any of its points whenever the event loop chooses:
    the schedules below include all those of the real event loop. *)
Inductive pc : Type :=
| AtWaitForPageSlot               (* before the test of the polling loop *)
| AtContextsGet                   (* waitForPageSlot has returned *)
| AtLaunch                        (* await chromium.launch(...) *)
| AtNewContext                    (* await browser.newContext(...) *)
| AtNewPage                       (* await context.newPage() *)
| AtGoto                          (* await page.goto(url, ...) *)
| AtWaitForTimeout                (* await page.waitForTimeout(1000) *)
| AtContent                       (* await page.content() *)
| AtPageClose (r : document + error)   (* finally: await page.close() *)
| AtParse (html : document)       (* the fetch has returned to search *)
| Done (r : SearchResponse + error).

(** A call: its browser, its request, the address it fetches, the local
    [context] of the fetch once [getOrCreateContext] has returned it, and
    where the call is. *)
Record call : Type := mkCall {
  c_world : world;
  c_request : requestOptions;
  c_url : jsstring;
  c_context : option nat;
  c_pc : pc
}.

Definition goto (p : pc) (c : call) : call :=
  mkCall (c_world c) (c_request c) (c_url c) (c_context c) p.

Definition with_context (context : nat) (c : call) : call :=
  mkCall (c_world c) (c_request c) (c_url c) (Some context) (c_pc c).

(** The call [search(query, options)], up to its first [await]. *)
Definition start (w : world) (query : jsstring) (o : options) : call :=
  let requestOptions := merge query o in
  let prefix := if is_baidu requestOptions then baidu_prefix else bing_prefix in
  match encodeURIComponent query with
  | Some q => mkCall w requestOptions (prefix ++ q) None AtWaitForPageSlot
  | None => mkCall w requestOptions [] None (Done (inr URIError))
  end.

(** What [search] does with the page once the fetch has returned. *)
Definition store (r : requestOptions) (html : document) : M SearchResponse :=
  let results :=
    if is_baidu r then parseBaiduSearchResults html
    else parseBingSearchResults html in
  let response := mkResponse (query r) (slice0 (max_results r) results) in
  assign (set_result (Some response)) ;;
  ret response.

(** One step of a call: from one [await] to the next. *)
Definition step (c : call) (s : LocalSearchServer) : call * LocalSearchServer :=
  let w := c_world c in
  match c_pc c with
  | AtWaitForPageSlot =>
      match waitForPageSlot s with
      | (Returns _, s') => (goto AtContextsGet c, s')
      | _ => (c, s)
      end
  | AtContextsGet =>
      match map_get (uid (c_request c)) (contexts s) with
      | Some context => (goto AtNewPage (with_context context c), s)
      | None =>
          match browser s with
          | Some _ => (goto AtNewContext c, s)
          | None => (goto AtLaunch c, s)
          end
      end
  | AtLaunch =>
      match (settle (w_launch w) ;; b <- make_object ;;
             assign (set_browser (Some b))) s with
      | (Returns _, s') => (goto AtNewContext c, s')
      | (Throws e, s') => (goto (Done (inr e)) c, s')
      | (Waits, s') => (c, s')
      end
  | AtNewContext =>
      match (settle (w_newContext w) ;; context <- make_object ;;
             s <- this ;;
             assign (set_contexts
                       (map_set (uid (c_request c)) context (contexts s))) ;;
             ret context) s with
      | (Returns context, s') => (goto AtNewPage (with_context context c), s')
      | (Throws e, s') => (goto (Done (inr e)) c, s')
      | (Waits, s') => (c, s')
      end
  | AtNewPage =>
      match w_newPage w with
      | None => (goto AtGoto c, s)
      | Some e => (goto (Done (inr e)) c, snd (releasePageSlot s))
      end
  | AtGoto =>
      match w_goto w (c_url c) with
      | None => (goto AtWaitForTimeout c, s)
      | Some e => (goto (AtPageClose (inr e)) c, s)
      end
  | AtWaitForTimeout =>
      match w_waitForTimeout w with
      | None => (goto AtContent c, s)
      | Some e => (goto (AtPageClose (inr e)) c, s)
      end
  | AtContent => (goto (AtPageClose (w_content w (c_url c))) c, s)
  | AtPageClose r =>
      match w_pageClose w with
      | Some e => (goto (Done (inr e)) c, s)
      | None =>
          let s' := snd (releasePageSlot s) in
          match r with
          | inl html => (goto (AtParse html) c, s')
          | inr e => (goto (Done (inr e)) c, s')
          end
      end
  | AtParse html =>
      match store (c_request c) html s with
      | (Returns response, s') => (goto (Done (inl response)) c, s')
      | (_, s') => (c, s')
      end
  | Done _ => (c, s)
  end.

(** The instance and the calls in flight. *)
Record system : Type := mkSystem {
  server : LocalSearchServer;
  calls : list call
}.

Fixpoint resume_at (i : nat) (s : LocalSearchServer) (cs : list call)
  : LocalSearchServer * list call :=
  match cs, i with
  | [], _ => (s, [])
  | c :: r, O => let (c', s') := step c s in (s', c' :: r)
  | c :: r, S j => let (s', r') := resume_at j s r in (s', c :: r')
  end.

(** What the event loop can do next: take a new [search] call, resume a
    suspended call, or deliver an event of a context or of the browser. *)
Inductive action : Type :=
| Call (w : world) (query : jsstring) (o : options)
| Resume (i : nat)
| ContextClosed (uid : jsstring)
| Disconnected.

Definition act (sys : system) (a : action) : system :=
  match a with
  | Call w query o => mkSystem (server sys) (calls sys ++ [start w query o])
  | Resume i =>
      let (s', cs') := resume_at i (server sys) (calls sys) in mkSystem s' cs'
  | ContextClosed uid => mkSystem (on_close uid (server sys)) (calls sys)
  | Disconnected => mkSystem (on_disconnected (server sys)) (calls sys)
  end.

Definition run (acts : list action) (sys : system) : system :=
  fold_left act acts sys.

(** A new instance with ceiling [m] and no call yet. *)
Definition boot (m : Z) : system := mkSystem (new_server_with m) [].

(** The call has taken a slot and not given it back. *)
Definition holds_slot (p : pc) : bool :=
  match p with
  | AtWaitForPageSlot | AtParse _ | Done _ => false
  | _ => true
  end.

(** The call has a page that it has not closed. *)
Definition page_open (p : pc) : bool :=
  match p with
  | AtGoto | AtWaitForTimeout | AtContent | AtPageClose _ => true
  | _ => false
  end.

Fixpoint count (f : pc -> bool) (cs : list call) : Z :=
  match cs with
  | [] => 0
  | c :: r => ((if f (c_pc c) then 1 else 0) + count f r)%Z
  end.

(** A call alone: [n] steps in a row. *)
Fixpoint alone (n : nat) (c : call) (s : LocalSearchServer)
  : call * LocalSearchServer :=
  match n with
  | O => (c, s)
  | S k => let (c', s') := step c s in alone k c' s'
  end.

Definition final_pc (o : outcome SearchResponse) : pc :=
  match o with
  | Returns r => Done (inl r)
  | Throws e => Done (inr e)
  | Waits => AtWaitForPageSlot
  end.

End Interleaving.

(* ================================================================== *)
(** * Notions used in the statements *)

Module Notions.

Import Server Interleaving.

(** A browser in which every promise resolves; every page is empty. *)
Definition quiet : world :=
  mkWorld None None None (fun _ => None) None (fun _ => inl []) None
          (fun _ => None) None.

(** The browser does not start: [chromium.launch] rejects. *)
Definition launch_rejects : world :=
  mkWorld (Some (Rejected 1)) None None (fun _ => None) None
          (fun _ => inl []) None (fun _ => None) None.

(** The browser runs, [browser.newContext] rejects. *)
Definition newContext_rejects : world :=
  mkWorld None (Some (Rejected 2)) None (fun _ => None) None
          (fun _ => inl []) None (fun _ => None) None.

(** Every promise resolves and every page is [html]. *)
Definition serves (html : document) : world :=
  mkWorld None None None (fun _ => None) None (fun _ => inl html) None
          (fun _ => None) None.

Definition is_some {A} (o : option A) : bool :=
  match o with Some _ => true | None => false end.

(** [getOrCreateContext(uid)] throws: there is no context for [uid] and
    the launch, when one is needed, or the making of the context rejects. *)
Definition context_rejects (w : world) (uid : jsstring)
           (s : LocalSearchServer) : bool :=
  match map_get uid (contexts s) with
  | Some _ => false
  | None =>
      match browser s with
      | Some _ => is_some (w_newContext w)
      | None => is_some (w_launch w) || is_some (w_newContext w)
      end
  end.

(** The page was opened and [page.close] rejects in the [finally]. *)
Definition close_rejects (w : world) : bool :=
  match w_newPage w with
  | None => is_some (w_pageClose w)
  | Some _ => false
  end.

(** The counter and the calls agree with a ceiling [m]: the calls that
    hold a slot are counted, and the counter is at most [m]. *)
Definition slots_ok (m : Z) (sys : system) : Prop :=
  maxConcurrentPages (server sys) = m /\
  (count holds_slot (calls sys) <= activePages (server sys))%Z /\
  (activePages (server sys) <= m)%Z.

(** The extraction rules that [search] applies for a request. *)
Definition extract (r : requestOptions) (html : document)
  : list ExtractedResult :=
  if is_baidu r then parseBaiduSearchResults html
  else parseBingSearchResults html.

(** The address that [search] builds from the encoded query [q]. *)
Definition address (r : requestOptions) (q : jsstring) : jsstring :=
  (if is_baidu r then baidu_prefix else bing_prefix) ++ q.

(** The page that the browser has for a call: the content at the address
    of the call, when the query can be encoded and the content is read. *)
Definition page_of (w : world) (query : jsstring) (o : options)
  : option document :=
  match encodeURIComponent query with
  | Some q =>
      match w_content w (address (merge query o) q) with
      | inl html => Some html
      | inr _ => None
      end
  | None => None
  end.

Definition rejection (r : option error) : list error :=
  match r with Some e => [e] | None => [] end.

(** The rejections the browser has in store for a fetch of [url]. *)
Definition rejections (w : world) (url : jsstring) : list error :=
  rejection (w_launch w) ++ rejection (w_newContext w)
  ++ rejection (w_newPage w) ++ rejection (w_goto w url)
  ++ rejection (w_waitForTimeout w)
  ++ match w_content w url with inl _ => [] | inr e => [e] end
  ++ rejection (w_pageClose w).

(** The options with [engine] given. *)
Definition with_engine (e : jsstring) (o : options) : options :=
  mkOptions (opt_uid o) (opt_max_results o) (Some e).

(** The calls of a caller, one after the other, and how each ended. *)
Fixpoint searches (cs : list (world * jsstring * options))
         (s : LocalSearchServer)
  : list (outcome SearchResponse) * LocalSearchServer :=
  match cs with
  | [] => ([], s)
  | (w, query, o) :: rest =>
      let (out, s1) := search w query o s in
      let (outs, s2) := searches rest s1 in
      (out :: outs, s2)
  end.

Definition returned {A} (o : outcome A) : bool :=
  match o with Returns _ => true | _ => false end.


(** Calls of [getOrCreateContext], one after the other. *)
Fixpoint getOrCreateContexts (cs : list (world * jsstring))
         (s : LocalSearchServer) : list (outcome nat) * LocalSearchServer :=
  match cs with
  | [] => ([], s)
  | (w, uid) :: rest =>
      let (out, s1) := getOrCreateContext w uid s in
      let (outs, s2) := getOrCreateContexts rest s1 in
      (out :: outs, s2)
  end.



(** ** The tiers of a Bing entry *)

(** The three places where content is looked for. *)
Definition clamped (element : node) : list node :=
  find [tag_class "p" "b_lineclamp3"] [element].

Definition caption (element : node) : list node :=
  find [class_only "b_caption"; tag_only "p"] [element].

Definition list_items (element : node) : list node :=
  find [class_only "b_dList"; class_only "lisn_olitem"; tag_only "span"]
       [element].

(** The text of paragraphs without their date spans, trimmed, white space
    runs made one space. *)
Definition stripped_text (paragraphs : list node) : jsstring :=
  replace_ws_runs (trim (text (remove_found news_dt paragraphs))).

(** What a list item has to say: its [title] attribute when that is a
    non-empty string, else its trimmed text. *)
Definition item_text (item : node) : jsstring :=
  match attr "title" [item] with
  | Some t => if truthy t then t else trim (text [item])
  | None => trim (text [item])
  end.

(** The items that say something, joined with single spaces. *)
Definition items_text (items : list node) : jsstring :=
  replace_ws_runs
    (trim (join (lit " ") (filter truthy (map item_text items)))).

(** A tier is [None] when its nodes are not in the entry, else its text. *)
Definition tier_a (element : node) : option jsstring :=
  if nonempty (clamped element) then Some (stripped_text (clamped element))
  else None.

Definition tier_b (element : node) : option jsstring :=
  if nonempty (caption element) then Some (stripped_text (caption element))
  else None.

Definition tier_c (element : node) : option jsstring :=
  if nonempty (list_items element)
  then Some (items_text (list_items element))
  else None.

(** C4 as it is written: the text of the first tier whose text is not
    empty. *)
Fixpoint first_nonempty (tiers : list (option jsstring)) : jsstring :=
  match tiers with
  | [] => []
  | Some t :: rest => if truthy t then t else first_nonempty rest
  | None :: rest => first_nonempty rest
  end.

(** The text of the first tier whose nodes are in the entry. *)
Fixpoint first_present (tiers : list (option jsstring)) : jsstring :=
  match tiers with
  | [] => []
  | Some t :: _ => t
  | None :: rest => first_present rest
  end.

(** An element with a [class] attribute. *)
Definition el (name class : string) (children : list node) : node :=
  Element name [("class"%string, lit class)] children.

Definition link (href text : string) : node :=
  Element "h2" [] [Element "a" [("href"%string, lit href)] [Text (lit text)]].

(** A Bing entry whose clamped paragraph is empty and whose caption
    paragraph has text. *)
Definition empty_clamp_entry : node :=
  el "li" "b_algo"
     [link "http://a" "A";
      el "p" "b_lineclamp3" [];
      el "div" "b_caption" [Element "p" [] [Text (lit "caption")]]].

(** A Bing entry with a dated clamped paragraph and a caption. *)
Definition dated_entry : node :=
  el "li" "b_algo"
     [link "http://b" " B ";
      el "p" "b_lineclamp3"
         [el "span" "news_dt" [Text (lit "2025-5-13")];
          Text (lit "  first   tier ")];
      el "div" "b_caption" [Element "p" [] [Text (lit "second tier")]]].

(** A Bing entry with list items only, one with a [title] attribute. *)
Definition list_entry : node :=
  el "li" "b_algo"
     [link "http://c" "C";
      el "div" "b_dList"
         [el "div" "lisn_olitem"
             [Element "span" [("title"%string, lit "full text")]
                      [Text (lit "full ...")];
              Element "span" [] [Text (lit " shown ")]]]].

(** A Bing entry with a title and a link and nothing else. *)
Definition bare_entry : node := el "li" "b_algo" [link "http://d" "D"].

(** A Bing entry that carries the class [b_caption] itself, and one that
    carries [b_dList] itself. *)
Definition captioned_container : node :=
  el "li" "b_algo b_caption"
     [link "http://g" "G"; Element "p" [] [Text (lit "inside")]].

Definition listed_container : node :=
  el "li" "b_algo b_dList"
     [link "http://h" "H";
      el "div" "lisn_olitem" [Element "span" [] [Text (lit "item")]]].

(** A page with three Bing entries. *)
Definition three_results : document :=
  [el "body" "" [dated_entry; list_entry; bare_entry]].

(** A Baidu entry with a title and a link and no content span, and one
    with all three. *)
Definition baidu_bare_entry : node :=
  el "div" "result c-container"
     [el "h3" "t" [Element "a" [("href"%string, lit "http://e")]
                           [Text (lit "E")]]].

Definition baidu_full_entry : node :=
  el "div" "result c-container"
     [el "h3" "t" [Element "a" [("href"%string, lit "http://f")]
                           [Element "em" [] [Text (lit "hit")];
                            Text (lit " F")]];
      el "span" "content-right_2s-H4" [Text (lit " about f ")]].

(** The containers that the parsers visit. *)
Definition bing_containers (html : document) : list node :=
  select [tag_class "li" "b_algo"] html.

Definition baidu_containers (html : document) : list node :=
  select [Compound (Some "div"%string) ["result"%string; "c-container"%string]]
         html.

(** What one container adds to [results]. *)
Definition bing_candidate (element : node) : list ExtractedResult :=
  bing_visit [] element.

Definition baidu_candidate (element : node) : list ExtractedResult :=
  baidu_visit [] element.

End Notions.

(* ================================================================== *)
(** * The PATH helpers of main.js *)

Module Desktop.

(** [s.split(sep)] for a separator of one code unit; [cur] is the piece
    being read, last unit first.  The empty string gives one empty piece. *)
Fixpoint split_from (sep : N) (cur : jsstring) (s : jsstring)
  : list jsstring :=
  match s with
  | [] => [rev cur]
  | c :: r =>
      if (c =? sep)%N then rev cur :: split_from sep [] r
      else split_from sep (c :: cur) r
  end.

Definition split (sep : N) (s : jsstring) : list jsstring :=
  split_from sep [] s.

(** A [Set] of strings: its members in the order they were added. *)
Definition StringSet := list jsstring.

(** [set.add(x)] *)
Definition set_add (x : jsstring) (set : StringSet) : StringSet :=
  if existsb (eqb x) set then set else set ++ [x].

(** [new Set(array)], and [array.forEach(p => set.add(p))] on a set. *)
Definition set_add_all (a : list jsstring) (set : StringSet) : StringSet :=
  fold_left (fun acc x => set_add x acc) a set.

(** What the helpers read and write of [process]: [process.platform] and
    [process.env.PATH], which may be undefined. *)
Record process : Type := mkProcess {
  platform : jsstring;
  PATH : option jsstring
}.

(** [platform === 'win32' ? ';' : ':'] *)
Definition delimiter (platform : jsstring) : N :=
  if eqb platform (lit "win32") then 59%N else 58%N.

(** [addToEnvPath(dir)]; [None] is the [TypeError] of [undefined.split]. *)
Definition addToEnvPath (dir : jsstring) (p : process) : option process :=
  let delimiter := delimiter (platform p) in
  match PATH p with
  | None => None
  | Some path =>
      let pathSet := set_add_all (split delimiter path) [] in
      let pathSet := set_add dir pathSet in
      Some (mkProcess (platform p) (Some (join [delimiter] pathSet)))
  end.

(** The paths that [setupInitialDockerPathEnv] puts in front. *)
Definition customPaths (platform : jsstring) : StringSet :=
  if eqb platform (lit "darwin") then
    set_add (lit "/opt/homebrew/bin")
      (set_add (lit "/Applications/Docker.app/Contents/Resources/bin")
         (set_add (lit "/sbin")
            (set_add (lit "/usr/sbin")
               (set_add (lit "/bin") (set_add (lit "/usr/bin") [])))))
  else if eqb platform (lit "win32") then
    set_add (lit "C:\Program Files\Docker\Docker\resources\bin") []
  else [].

Definition setupInitialDockerPathEnv (p : process) : option process :=
  let customPaths := customPaths (platform p) in
  let delimiter := delimiter (platform p) in
  match PATH p with
  | None => None
  | Some path =>
      let originalPaths := split delimiter path in
      let customPaths := set_add_all originalPaths customPaths in
      Some (mkProcess (platform p) (Some (join [delimiter] customPaths)))
  end.

End Desktop.

(* ================================================================== *)
(** * Notions used in the further statements *)

Module Behaviour.

Import Server Interleaving Notions Desktop.

(** A string is well-formed UTF-16 when every lead surrogate is followed
    by a trail surrogate and no trail surrogate stands elsewhere. *)
Fixpoint well_formed (s : jsstring) : bool :=
  match s with
  | [] => true
  | c :: r =>
      if is_lead c then
        match r with
        | d :: r' => is_trail d && well_formed r'
        | [] => false
        end
      else if is_trail c then false
      else well_formed r
  end.

(** The code units of a string are 16 bits wide. *)
Definition units16 (s : jsstring) : Prop := Forall (fun c => (c < 65536)%N) s.

(** What may stand in an encoded query: an unreserved character (among
    them the hexadecimal digits) or the percent sign. *)
Definition url_safe (c : N) : bool := unreserved c || (c =? 37)%N.

(** The string starts, or ends, with white space. *)
Definition starts_ws (s : jsstring) : bool :=
  match s with c :: _ => is_ws c | [] => false end.

Fixpoint ends_ws (s : jsstring) : bool :=
  match s with
  | [] => false
  | [c] => is_ws c
  | _ :: r => ends_ws r
  end.

Definition trimmed (s : jsstring) : bool :=
  negb (starts_ws s) && negb (ends_ws s).

(** Every white space of the string is one U+0020 between two other
    characters or at an end. *)
Fixpoint single_spaced (s : jsstring) : bool :=
  match s with
  | [] => true
  | c :: r =>
      (negb (is_ws c) || ((c =? 32)%N && negb (starts_ws r)))
      && single_spaced r
  end.

(** Trimmed and single-spaced. *)
Definition normalised (s : jsstring) : bool :=
  trimmed s && single_spaced s.

(** The children of a node. *)
Definition kids (n : node) : list node :=
  match n with Element _ _ children => children | Text _ => [] end.

(** The world [w], its launch and its making of contexts replaced. *)
Definition with_launch (launch newContext : option error) (w : world)
  : world :=
  mkWorld launch newContext (w_newPage w) (w_goto w) (w_waitForTimeout w)
          (w_content w) (w_pageClose w) (w_contextClose w) (w_browserClose w).

(** Every object named in the state was made: the browser and the
    contexts of the registry are below [allocated]. *)
Definition objects_made (s : LocalSearchServer) : Prop :=
  (forall b, browser s = Some b -> (b < allocated s)%nat) /\
  (forall c, In c (map snd (contexts s)) -> (c < allocated s)%nat).

(** The same letter, in either case. *)
Definition same_letter (c l : N) : bool :=
  ((c =? l) || (c + 32 =? l))%N.

(** The slots that are counted and that no call in flight holds. *)
Definition lost_slots (sys : system) : Z :=
  (activePages (server sys) - count holds_slot (calls sys))%Z.

(** The entries of the registry from the first one whose [close]
    rejects. *)
Fixpoint from_first_rejection (w : world) (entries : Map nat) : Map nat :=
  match entries with
  | [] => []
  | (uid, context) :: rest =>
      match w_contextClose w context with
      | None => from_first_rejection w rest
      | Some _ => entries
      end
  end.

(** A call whose query can be encoded and during which
    [chromium.launch] rejects. *)
Definition launch_fails (c : world * jsstring * options) : bool :=
  match c with
  | (w, query, _) => is_some (w_launch w) && is_some (encodeURIComponent query)
  end.

(** A PATH of three entries, one of them twice. *)
Definition linux_process : process :=
  mkProcess (lit "linux") (Some (lit "/usr/bin:/bin:/usr/bin")).

Definition darwin_process : process :=
  mkProcess (lit "darwin") (Some (lit "/usr/local/bin:/bin")).

(** A page with two Bing entries. *)
Definition two_entries : document :=
  [el "body" "" [dated_entry; list_entry]].

(** The selector of the anchors of a Baidu title. *)
Definition title_anchors : selector :=
  [Compound (Some "h3"%string) ["t"%string]; tag_only "a"].

(** The slot a call holds, as a number. *)
Definition slot_of (p : pc) : Z := if holds_slot p then 1 else 0.

(** The steps of one call, each taken from the state in which the other
    calls and the events have left the instance: where the call is after
    them, and what its own steps have added to [activePages]. *)
Fixpoint own_steps (c : call) (ss : list LocalSearchServer) : call * Z :=
  match ss with
  | [] => (c, 0%Z)
  | s :: rest =>
      let (c', s') := step c s in
      let (c'', d) := own_steps c' rest in
      (c'', (activePages s' - activePages s + d)%Z)
  end.

(** The test of the polling loop lets a call through. *)
Definition gate_open (s : LocalSearchServer) : bool :=
  (activePages s <? maxConcurrentPages s)%Z.

(** An instance with two slots, one taken and both taken. *)
Definition one_busy : LocalSearchServer :=
  snd (waitForPageSlot (new_server_with 2)).

Definition both_busy : LocalSearchServer := snd (waitForPageSlot one_busy).

(** What a call finds at its steps when another call holds a slot all
    along and a third one gives its slot back after the first step. *)
Definition crowded : list LocalSearchServer :=
  both_busy :: one_busy :: repeat both_busy 9.

End Behaviour.

(* ================================================================== *)
(** * Properties *)

Import Server Interleaving Notions.
Local Open Scope js_scope.

(** ** Tactics and small facts *)

Ltac break_match :=
  match goal with
  | |- context [match ?x with _ => _ end] => destruct x eqn:?
  | H : context [match ?x with _ => _ end] |- _ => destruct x eqn:?
  end.

Ltac unfold_js :=
  unfold bind, ret, throw, this, assign, attempt, resume, settle, make_object in *.

Lemma eqb_eq (a b : jsstring) : eqb a b = true <-> a = b.
Proof.
  unfold eqb. destruct (list_eq_dec N.eq_dec a b); split; congruence.
Qed.

Lemma eqb_refl (a : jsstring) : eqb a a = true.
Proof. apply eqb_eq. reflexivity. Qed.

Lemma eqb_neq (a b : jsstring) : eqb a b = false <-> a <> b.
Proof.
  unfold eqb. destruct (list_eq_dec N.eq_dec a b); split; congruence.
Qed.

Lemma truthy_spec (s : jsstring) : truthy s = true <-> s <> [].
Proof. destruct s; simpl; split; congruence. Qed.

(** Case analysis on the next decision of a method: the test of the
    polling loop, a look-up in [contexts], a field, an outcome of the
    browser. *)
Ltac case_atom :=
  match goal with
  | |- context [if (?a >=? ?b)%Z then _ else _] => destruct (a >=? b)%Z eqn:?
  | |- context [match map_get ?k ?m with _ => _ end] =>
      destruct (map_get k m) eqn:?
  | |- context [match ?x with _ => _ end] => is_var x; destruct x
  | |- context [match ?f ?x with _ => _ end] =>
      is_var f; is_var x; destruct (f x) eqn:?
  end.

Ltac unfold_methods :=
  unfold openUrlInSearchWindow, getOrCreateContext, initializeBrowser,
    waitForPageSlot, releasePageSlot in *; unfold_js.

(** ** A call alone is the method run in one go *)

(** The coroutine of [Interleaving], resumed ten times with nothing in
    between, ends where the method [search] of [Server] ends, or is still
    at the polling loop when [search] never leaves it. *)
Lemma alone_is_search (w : world) (query : jsstring) (o : options)
      (s : LocalSearchServer) :
  let (c, s') := alone 10 (start w query o) s in
  c_pc c = final_pc (fst (search w query o s)) /\ s' = snd (search w query o s).
Proof.
  unfold start, search, search_url.
  change (Server.query (merge query o)) with query.
  destruct (encodeURIComponent query) as [q|].
  2: { destruct (is_baidu (merge query o)); unfold_js; simpl; auto. }
  assert (Hq : Server.query (merge query o) = query) by reflexivity.
  revert Hq. generalize (merge query o). intros r Hq.
  destruct (is_baidu r) eqn:Hb.
  1: generalize (baidu_prefix ++ q).
  2: generalize (bing_prefix ++ q).
  all: intros u; destruct w as [l nc np g wt ct pcl cc bc].
  all: destruct s as [b cs m a res al].
  all: unfold alone, step, store; unfold_methods; cbn.
  all: repeat (case_atom; cbn; rewrite ?Hb, ?Hq;
               try solve [auto | discriminate]).
Qed.

(** ** The slot counter of one call *)

(** What one fetch does to [activePages]: nothing while it waits at a full
    gate; otherwise the slot it took is given back, unless
    [getOrCreateContext] throws (it is called before the [try]) or
    [page.close] throws (it is awaited before [releasePageSlot]). *)
Lemma openUrlInSearchWindow_activePages (w : world) (uid url : jsstring)
      (s : LocalSearchServer) :
  activePages (snd (openUrlInSearchWindow w uid url s)) =
  if (activePages s >=? maxConcurrentPages s)%Z then activePages s
  else if context_rejects w uid s || close_rejects w
       then (activePages s + 1)%Z
       else activePages s.
Proof.
  unfold context_rejects, close_rejects, is_some.
  destruct w as [l nc np g wt ct pcl cc bc], s as [b cs m a res al].
  unfold_methods; cbn.
  repeat (case_atom; cbn; try lia).
Qed.

(** C1 (the code at the failing input).  On a new instance, a [search]
    during which [chromium.launch] rejects throws that rejection and leaves
    [activePages] at 1 where it was 0: [getOrCreateContext] is called after
    [waitForPageSlot] and before the [try] whose [finally] releases the
    slot. *)
Theorem search_keeps_slot_when_launch_rejects :
  activePages new_server = 0%Z /\
  fst (search launch_rejects (lit "q") no_options new_server)
  = Throws (Rejected 1) /\
  activePages (snd (search launch_rejects (lit "q") no_options new_server))
  = 1%Z.
Proof. repeat split; vm_compute; reflexivity. Qed.

(** ** The ceiling under overlapping calls *)

Lemma geb_false (a m : Z) : (a >=? m)%Z = false -> (a < m)%Z.
Proof. rewrite Z.geb_leb. apply Z.leb_gt. Qed.

Lemma geb_true (a m : Z) : (a >=? m)%Z = true -> (m <= a)%Z.
Proof. rewrite Z.geb_leb. apply Z.leb_le. Qed.

(** One step of one call: the ceiling is not touched; the counter minus
    the slot the call holds does not go down; and the counter goes up only
    while it is below the ceiling. *)
Lemma step_slots (c : call) (s : LocalSearchServer) :
  maxConcurrentPages (snd (step c s)) = maxConcurrentPages s /\
  (activePages s - (if holds_slot (c_pc c) then 1 else 0)
   <= activePages (snd (step c s))
      - (if holds_slot (c_pc (fst (step c s))) then 1 else 0))%Z /\
  (activePages (snd (step c s)) <= activePages s \/
   activePages (snd (step c s)) <= maxConcurrentPages s)%Z.
Proof.
  destruct c as [w r u x p], w as [l nc np g wt ct pcl cc bc],
           s as [b cs m a res al].
  destruct p; unfold step, store; unfold_methods; cbn;
    repeat (case_atom; cbn);
    repeat match goal with
           | H : (_ >=? _)%Z = false |- _ => apply geb_false in H
           | H : (_ >=? _)%Z = true |- _ => apply geb_true in H
           end;
    repeat split; try lia.
Qed.

Lemma resume_at_slots (i : nat) :
  forall (cs : list call) (s : LocalSearchServer),
    maxConcurrentPages (fst (resume_at i s cs)) = maxConcurrentPages s /\
    (activePages s - count holds_slot cs
     <= activePages (fst (resume_at i s cs))
        - count holds_slot (snd (resume_at i s cs)))%Z /\
    (activePages (fst (resume_at i s cs)) <= activePages s \/
     activePages (fst (resume_at i s cs)) <= maxConcurrentPages s)%Z.
Proof.
  induction i as [|j IH]; intros [|c r] s; cbn; try (repeat split; lia).
  - pose proof (step_slots c s) as H. destruct (step c s) as [c' s'].
    cbn in *. lia.
  - specialize (IH r s). destruct (resume_at j s r) as [s' r'].
    cbn in *. lia.
Qed.

Lemma count_app (f : pc -> bool) (a b : list call) :
  count f (a ++ b) = (count f a + count f b)%Z.
Proof. induction a as [|c a IH]; cbn; [reflexivity | rewrite IH; lia]. Qed.

Lemma start_holds_nothing (w : world) (query : jsstring) (o : options) :
  holds_slot (c_pc (start w query o)) = false.
Proof. unfold start. destruct (encodeURIComponent query); reflexivity. Qed.

Lemma act_slots (m : Z) (sys : system) (a : action) :
  slots_ok m sys -> slots_ok m (act sys a).
Proof.
  unfold slots_ok. destruct sys as [s cs]. intros (Hm & Hc & Ha).
  destruct a as [w q o|i|uid|]; cbn in *.
  - rewrite count_app. cbn. rewrite start_holds_nothing. repeat split; lia.
  - pose proof (resume_at_slots i cs s) as H.
    destruct (resume_at i s cs) as [s' cs']. cbn in *. lia.
  - repeat split; lia.
  - repeat split; lia.
Qed.

Lemma run_slots (m : Z) (acts : list action) :
  forall sys, slots_ok m sys -> slots_ok m (run acts sys).
Proof.
  unfold run. induction acts as [|a acts IH]; intros sys H; cbn.
  - exact H.
  - apply IH, act_slots, H.
Qed.

Lemma open_pages_hold_slots (cs : list call) :
  (0 <= count page_open cs <= count holds_slot cs)%Z.
Proof.
  induction cs as [|c cs IH]; cbn [count]; [lia|].
  destruct (c_pc c); cbn [page_open holds_slot]; lia.
Qed.

(** C2.  A new instance has ceiling 10.  For a ceiling [m] that is not
    negative and every schedule of overlapping [search] calls (calls taken
    and resumed in any order, with events of close and disconnect in
    between), [activePages] never exceeds [m], and the calls that hold a
    slot, and so the pages that are open, are at most [activePages];
    [waitForPageSlot] returns only from a counter strictly below the
    ceiling, which it then increments. *)
Theorem activePages_never_exceeds_ceiling (m : Z) (acts : list action) :
  (0 <= m)%Z ->
  maxConcurrentPages new_server = 10%Z /\
  (activePages (server (run acts (boot m))) <= m)%Z /\
  (count page_open (calls (run acts (boot m)))
   <= count holds_slot (calls (run acts (boot m)))
   <= activePages (server (run acts (boot m))))%Z /\
  (forall s s', waitForPageSlot s = (Returns tt, s') ->
                (activePages s < maxConcurrentPages s)%Z /\
                activePages s' = (activePages s + 1)%Z).
Proof.
  intros Hm.
  assert (H : slots_ok m (run acts (boot m))).
  { apply run_slots. unfold slots_ok, boot. cbn. lia. }
  destruct H as (_ & Hc & Ha).
  pose proof (open_pages_hold_slots (calls (run acts (boot m)))).
  repeat split; try lia.
  - unfold waitForPageSlot in H0.
    destruct (activePages s >=? maxConcurrentPages s)%Z eqn:E;
      [discriminate | apply geb_false, E].
  - unfold waitForPageSlot in H0.
    destruct (activePages s >=? maxConcurrentPages s)%Z; [discriminate|].
    inversion H0. reflexivity.
Qed.

Lemma activePages_never_exceeds_ceiling_witness :
  let acts := [Call quiet (lit "a") no_options; Resume 0;
               Call launch_rejects (lit "b") no_options; Resume 1; Resume 0] in
  maxConcurrentPages new_server = 10%Z /\
  (activePages (server (run acts (boot 10))) <= 10)%Z /\
  (count page_open (calls (run acts (boot 10)))
   <= count holds_slot (calls (run acts (boot 10)))
   <= activePages (server (run acts (boot 10))))%Z /\
  (forall s s', waitForPageSlot s = (Returns tt, s') ->
                (activePages s < maxConcurrentPages s)%Z /\
                activePages s' = (activePages s + 1)%Z).
Proof.
  intro acts. apply (@activePages_never_exceeds_ceiling 10 acts). lia.
Defined.

(** ** What a search call returns and stores *)

Lemma openUrlInSearchWindow_result (w : world) (uid url : jsstring)
      (s : LocalSearchServer) :
  result (snd (openUrlInSearchWindow w uid url s)) = result s.
Proof.
  destruct w as [l nc np g wt ct pcl cc bc], s as [b cs m a res al].
  unfold_methods; cbn.
  repeat (case_atom; cbn; try reflexivity).
Qed.

Lemma openUrlInSearchWindow_returns (w : world) (uid url : jsstring)
      (s s' : LocalSearchServer) (html : document) :
  openUrlInSearchWindow w uid url s = (Returns html, s') ->
  w_content w url = inl html.
Proof.
  destruct w as [l nc np g wt ct pcl cc bc], s as [b cs m a res al].
  unfold_methods; cbn.
  repeat (case_atom; cbn; try discriminate); intros H; inversion H; congruence.
Qed.

Lemma openUrlInSearchWindow_throws (w : world) (uid url : jsstring)
      (s s' : LocalSearchServer) (e : error) :
  openUrlInSearchWindow w uid url s = (Throws e, s') ->
  In e (rejections w url).
Proof.
  unfold rejections, rejection.
  destruct w as [l nc np g wt ct pcl cc bc], s as [b cs m a res al].
  unfold_methods; cbn.
  repeat (case_atom; cbn; try discriminate); intros H; inversion H; subst;
    cbn; rewrite ?in_app_iff; cbn; auto 10.
Qed.

Lemma openUrlInSearchWindow_runs (w : world) (uid url : jsstring)
      (s : LocalSearchServer) :
  rejections w url = [] ->
  (activePages s < maxConcurrentPages s)%Z ->
  exists html, fst (openUrlInSearchWindow w uid url s) = Returns html.
Proof.
  unfold rejections, rejection. intros Hr Hs.
  apply Z.ltb_lt in Hs. rewrite Z.ltb_antisym, <- Z.geb_leb in Hs.
  apply negb_true_iff in Hs. revert Hr Hs.
  destruct w as [l nc np g wt ct pcl cc bc], s as [b cs m a res al].
  unfold_methods; cbn. intros Hr Hs. rewrite Hs.
  destruct l, nc, np, (g url), wt, (ct url), pcl; try discriminate; cbn;
    repeat (case_atom; cbn); eauto.
Qed.

(** [search], seen from its caller: the steps up to the fetch, then the
    parser of the engine, the [slice], the assignment to [this.result]. *)
Lemma search_unfold (w : world) (query : jsstring) (o : options)
      (s : LocalSearchServer) :
  search w query o s =
  match encodeURIComponent query with
  | None => (Throws URIError, s)
  | Some q =>
      match openUrlInSearchWindow w (uid (merge query o))
                                  (address (merge query o) q) s with
      | (Returns html, s') =>
          let response :=
            mkResponse query
              (slice0 (max_results (merge query o))
                      (extract (merge query o) html)) in
          (Returns response, set_result (Some response) s')
      | (Throws e, s') => (Throws e, s')
      | (Waits, s') => (Waits, s')
      end
  end.
Proof.
  unfold search, search_url, address, extract.
  change (Server.query (merge query o)) with query.
  destruct (is_baidu (merge query o));
    destruct (encodeURIComponent query) as [q|]; unfold_js;
    try reflexivity;
    match goal with
    | |- context [openUrlInSearchWindow ?a ?b ?c ?d] =>
        destruct (openUrlInSearchWindow a b c d) as [[html|e|] s']
    end; reflexivity.
Qed.

Lemma slice0_firstn {A} (n : Z) (a : list A) :
  (0 <= n)%Z -> slice0 n a = firstn (Z.to_nat n) a.
Proof.
  intros Hn. unfold slice0.
  destruct (n <? 0)%Z eqn:E; [apply Z.ltb_lt in E; lia|].
  destruct (Z.le_ge_cases n (Z.of_nat (List.length a))) as [H|H].
  - rewrite Z.min_l by lia. reflexivity.
  - rewrite Z.min_r by lia. rewrite Nat2Z.id.
    rewrite !firstn_all2; [reflexivity | lia | lia].
Qed.

(** Without a condition on [end]: [slice(0, end)] is the front of the
    array. *)
Lemma slice0_front {A} (n : Z) (a : list A) :
  exists rest, a = slice0 n a ++ rest.
Proof.
  unfold slice0. eexists. symmetry. apply firstn_skipn.
Qed.

(** C3.  When a [search] that was asked for [max_results] [n] (the
    option, or 5 when the option is absent; [n] not negative) returns, the
    list it returns is the first [n] results that the parser of the engine
    gives for the page of the call, all of them when there are fewer: it
    has at most [n] entries, it is the front of the parser's list in the
    same order, it is what is stored, and what [formatJSON] then
    returns. *)
Theorem search_returns_first_max_results
        (w : world) (query : jsstring) (o : options)
        (s s' : LocalSearchServer) (r : SearchResponse) (n : Z) :
  opt_max_results o = Some n \/ (opt_max_results o = None /\ n = 5%Z) ->
  (0 <= n)%Z ->
  search w query o s = (Returns r, s') ->
  exists html,
    page_of w query o = Some html /\
    resp_results r = firstn (Z.to_nat n) (extract (merge query o) html) /\
    (List.length (resp_results r) <= Z.to_nat n)%nat /\
    ((List.length (extract (merge query o) html) <= Z.to_nat n)%nat ->
     resp_results r = extract (merge query o) html) /\
    (exists rest, extract (merge query o) html = resp_results r ++ rest) /\
    result s' = Some r /\
    formatJSON s' = (Returns (resp_results r), s').
Proof.
  intros Hreq Hn H.
  assert (Hm : max_results (merge query o) = n).
  { unfold merge. cbn [max_results].
    destruct Hreq as [Ho|[Ho ->]]; rewrite Ho; reflexivity. }
  rewrite search_unfold in H. unfold page_of.
  destruct (encodeURIComponent query) as [q|]; [|discriminate].
  destruct (openUrlInSearchWindow _ _ _ s) as [[html|e|] s1] eqn:E;
    try discriminate.
  apply openUrlInSearchWindow_returns in E. rewrite E.
  cbn in H. inversion H; subst; clear H. cbn [resp_results].
  exists html. rewrite slice0_firstn by exact Hn.
  repeat split.
  - apply firstn_le_length.
  - intros Hl. apply firstn_all2, Hl.
  - eexists. symmetry. apply firstn_skipn.
Qed.

Lemma search_returns_first_max_results_witness :
  let o := mkOptions (Some (lit "u1")) (Some 2%Z) None in
  List.length (parseBingSearchResults three_results) = 3%nat /\
  exists r s',
    search (serves three_results) (lit "test topic") o new_server
    = (Returns r, s') /\
    resp_results r
    = [mkResult (lit "http://b") (lit "B") (lit "first tier");
       mkResult (lit "http://c") (lit "C") (lit "full text shown")] /\
    formatJSON s' = (Returns (resp_results r), s').
Proof.
  intro o. split; [reflexivity|].
  destruct (search (serves three_results) (lit "test topic") o new_server)
    as [out s'] eqn:E.
  assert (Ho : exists r, out = Returns r)
    by (vm_compute in E; inversion E; eauto).
  destruct Ho as [r ->]. exists r, s'. split; [reflexivity|].
  destruct (@search_returns_first_max_results
              (serves three_results) (lit "test topic") o new_server s' r 2%Z)
    as (page & Hp & Hr & _ & _ & _ & _ & Hj).
  - left. reflexivity.
  - lia.
  - exact E.
  - split; [|exact Hj]. rewrite Hr.
    vm_compute in Hp. inversion Hp; subst page. reflexivity.
Defined.

(** C6.  With an [engine] that does not lowercase to ['baidu'], [search]
    does what it does for ['bing']: it fetches the Bing address of the
    query and returns the front of what the Bing parser reads in that
    page.  It throws only what the encoding of the query or the browser
    throws, and so returns whenever the query can be encoded, the browser
    rejects nothing and a slot is free. *)
Theorem unrecognized_engine_is_bing
        (w : world) (query : jsstring) (o : options) (s : LocalSearchServer) :
  is_baidu (merge query o) = false ->
  search w query o s = search w query (with_engine (lit "bing") o) s /\
  (forall r s', search w query o s = (Returns r, s') ->
     exists q html,
       encodeURIComponent query = Some q /\
       w_content w (bing_prefix ++ q) = inl html /\
       r = mkResponse query (slice0 (max_results (merge query o))
                                    (parseBingSearchResults html))) /\
  (forall e s', search w query o s = (Throws e, s') ->
     (e = URIError /\ encodeURIComponent query = None) \/
     (exists q, encodeURIComponent query = Some q /\
                In e (rejections w (bing_prefix ++ q)))) /\
  (forall q, encodeURIComponent query = Some q ->
             rejections w (bing_prefix ++ q) = [] ->
             (activePages s < maxConcurrentPages s)%Z ->
             exists r, fst (search w query o s) = Returns r).
Proof.
  intros Hb. rewrite !search_unfold. unfold address, extract.
  assert (Hb' : is_baidu (merge query (with_engine (lit "bing") o)) = false)
    by reflexivity.
  rewrite Hb, Hb'.
  change (uid (merge query (with_engine (lit "bing") o)))
    with (uid (merge query o)).
  change (max_results (merge query (with_engine (lit "bing") o)))
    with (max_results (merge query o)).
  split; [reflexivity|].
  destruct (encodeURIComponent query) as [q|].
  2: { repeat split; intros; try discriminate.
       left. inversion H. auto. }
  destruct (openUrlInSearchWindow w (uid (merge query o)) (bing_prefix ++ q) s)
    as [[html|e|] s1] eqn:E.
  - repeat split; intros; try discriminate.
    + inversion H; subst. exists q, html.
      apply openUrlInSearchWindow_returns in E. auto.
    + eexists. reflexivity.
  - repeat split; intros; try discriminate.
    + inversion H; subst. right. exists q.
      apply openUrlInSearchWindow_throws in E. auto.
    + inversion H; subst.
      destruct (@openUrlInSearchWindow_runs w (uid (merge query o)) _ s H0 H1)
        as [html Hh].
      rewrite E in Hh. discriminate.
  - repeat split; intros; try discriminate.
    inversion H; subst.
    destruct (@openUrlInSearchWindow_runs w (uid (merge query o)) _ s H0 H1)
      as [html Hh].
    rewrite E in Hh. discriminate.
Qed.

Lemma unrecognized_engine_is_bing_witness :
  search quiet (lit "q") (mkOptions None None (Some (lit "Google"))) new_server
  = search quiet (lit "q")
           (with_engine (lit "bing")
                        (mkOptions None None (Some (lit "Google"))))
           new_server.
Proof.
  exact (proj1 (@unrecognized_engine_is_bing
                  quiet (lit "q") (mkOptions None None (Some (lit "Google")))
                  new_server eq_refl)).
Defined.

(** ** The stored response *)

(** [this.result] after a call: the response when the call returns,
    what it was before otherwise. *)
Lemma search_result (w : world) (query : jsstring) (o : options)
      (s : LocalSearchServer) :
  result (snd (search w query o s)) =
  match fst (search w query o s) with
  | Returns r => Some r
  | _ => result s
  end.
Proof.
  rewrite search_unfold.
  destruct (encodeURIComponent query) as [q|]; [|reflexivity].
  pose proof (openUrlInSearchWindow_result
                w (uid (merge query o)) (address (merge query o) q) s) as H.
  destruct (openUrlInSearchWindow _ _ _ s) as [[html|e|] s1];
    cbn in *; auto.
Qed.

Lemma formatContent_reads_result (s1 s2 : LocalSearchServer) :
  result s1 = result s2 -> fst (formatContent s1) = fst (formatContent s2).
Proof.
  unfold formatContent; unfold_js. intros ->.
  destruct (result s2); reflexivity.
Qed.

Lemma formatJSON_reads_result (s1 s2 : LocalSearchServer) :
  result s1 = result s2 -> fst (formatJSON s1) = fst (formatJSON s2).
Proof.
  unfold formatJSON; unfold_js. intros ->.
  destruct (result s2); reflexivity.
Qed.

(** A step of a call writes [this.result] only at [AtParse], where the
    page of the fetch is in hand. *)
Lemma step_result (c : call) (s : LocalSearchServer) :
  (forall html, c_pc c <> AtParse html) ->
  result (snd (step c s)) = result s.
Proof.
  destruct c as [w r u x p], w as [l nc np g wt ct pcl cc bc],
           s as [b cs m a res al].
  intros H. destruct p; unfold step; unfold_methods; cbn;
    repeat (case_atom; cbn); try reflexivity.
  exfalso. eapply H. reflexivity.
Qed.

(** C10.  A [search] that does not return (it throws, or never gets a
    slot) leaves [this.result] as it was, so [formatContent] and
    [formatJSON] answer as before the call; and among the steps of a call
    only the one after a fetch that returned its page writes
    [this.result]. *)
Theorem failed_search_keeps_result
        (w : world) (query : jsstring) (o : options) (s : LocalSearchServer) :
  returned (fst (search w query o s)) = false ->
  result (snd (search w query o s)) = result s /\
  fst (formatContent (snd (search w query o s))) = fst (formatContent s) /\
  fst (formatJSON (snd (search w query o s))) = fst (formatJSON s) /\
  (forall c s0, (forall html, c_pc c <> AtParse html) ->
                result (snd (step c s0)) = result s0).
Proof.
  intros H.
  assert (Hr : result (snd (search w query o s)) = result s).
  { rewrite search_result. destruct (fst (search w query o s));
      [discriminate | reflexivity | reflexivity]. }
  repeat split.
  - exact Hr.
  - apply formatContent_reads_result, Hr.
  - apply formatJSON_reads_result, Hr.
  - intros c s0. apply step_result.
Qed.

Lemma failed_search_keeps_result_witness :
  let s := snd (search quiet (lit "first") no_options new_server) in
  result s <> None /\
  fst (search newContext_rejects (lit "q")
              (mkOptions (Some (lit "u2")) None None) s)
  = Throws (Rejected 2) /\
  result (snd (search newContext_rejects (lit "q")
                      (mkOptions (Some (lit "u2")) None None) s))
  = result s.
Proof.
  intro s. split; [vm_compute; discriminate|]. split; [reflexivity|].
  apply (@failed_search_keeps_result
           newContext_rejects (lit "q") (mkOptions (Some (lit "u2")) None None)
           s).
  reflexivity.
Defined.

Lemma searches_result (cs : list (world * jsstring * options)) :
  forall s,
    forallb (fun out => negb (returned out)) (fst (searches cs s)) = true ->
    result (snd (searches cs s)) = result s.
Proof.
  induction cs as [|[[w query] o] rest IH]; intros s H; cbn in *.
  - reflexivity.
  - pose proof (search_result w query o s) as Hs.
    destruct (search w query o s) as [out s1].
    specialize (IH s1).
    destruct (searches rest s1) as [outs s2].
    cbn in *. apply andb_true_iff in H. destruct H as [Ho Hrest].
    rewrite IH by exact Hrest. rewrite Hs.
    destruct out; [discriminate | reflexivity | reflexivity].
Qed.

(** C8.  On an instance on which no [search] has returned yet (a new one,
    or one whose calls so far all failed), [formatContent] returns the
    empty string and [formatJSON] the empty array, and neither throws; as
    they do in every state whose [result] is [null]. *)
Theorem format_before_any_successful_search
        (cs : list (world * jsstring * options)) :
  forallb (fun out => negb (returned out)) (fst (searches cs new_server))
  = true ->
  fst (formatContent (snd (searches cs new_server))) = Returns [] /\
  fst (formatJSON (snd (searches cs new_server))) = Returns [] /\
  (forall s, result s = None ->
             formatContent s = (Returns [], s) /\
             formatJSON s = (Returns [], s)).
Proof.
  intros H. apply searches_result in H. cbn in H.
  assert (G : forall s, result s = None ->
                        formatContent s = (Returns [], s) /\
                        formatJSON s = (Returns [], s)).
  { intros s Hs. unfold formatContent, formatJSON; unfold_js.
    rewrite Hs. auto. }
  destruct (G _ H) as [Hc Hj]. rewrite Hc, Hj. auto.
Qed.

Lemma format_before_any_successful_search_witness :
  let cs := [(launch_rejects, lit "q", no_options);
             (newContext_rejects, lit "q", no_options)] in
  fst (formatContent (snd (searches cs new_server))) = Returns [] /\
  fst (formatJSON (snd (searches cs new_server))) = Returns [].
Proof.
  intro cs.
  destruct (@format_before_any_successful_search cs) as (Hc & Hj & _).
  - reflexivity.
  - split; assumption.
Defined.

(** ** cleanup *)

Lemma close_each_fields (w : world) (entries : Map nat) :
  forall s,
    fst (close_each w entries s) <> Waits /\
    browser (snd (close_each w entries s)) = browser s /\
    ((forall c, w_contextClose w c = None) ->
     fst (close_each w entries s) = Returns tt).
Proof.
  induction entries as [|[uid c] rest IH]; intros s; cbn.
  - repeat split; auto. discriminate.
  - unfold context_close. unfold_js.
    destruct (w_contextClose w c) as [e|] eqn:E; cbn.
    + repeat split; auto; try discriminate.
      intros H. rewrite H in E. discriminate.
    + specialize (IH (on_close uid s)).
      destruct (close_each w rest (on_close uid s)) as [[[]|e|] s1];
        cbn in *; tauto.
Qed.

Lemma cleanup_returns (w : world) (s s' : LocalSearchServer) :
  cleanup w s = (Returns tt, s') ->
  browser s' = None /\ contexts s' = [] /\ activePages s' = 0%Z /\
  result s' = None /\ maxConcurrentPages s' = maxConcurrentPages s.
Proof.
  unfold cleanup. unfold_js.
  assert (Hm : forall entries s0,
             maxConcurrentPages (snd (close_each w entries s0))
             = maxConcurrentPages s0).
  { induction entries as [|[uid c] rest IH]; intros s0; cbn; auto.
    unfold context_close. unfold_js.
    destruct (w_contextClose w c); cbn; auto.
    specialize (IH (on_close uid s0)).
    destruct (close_each w rest (on_close uid s0)) as [[[]|e|] s1];
      cbn in *; auto. }
  specialize (Hm (contexts s) s).
  destruct (close_each w (contexts s) s) as [[[]|e|] s1]; try discriminate.
  cbn in Hm.
  destruct (browser s1) eqn:Hb1;
    [destruct (w_browserClose w); try discriminate|];
    cbn; intros H; inversion H; subst; cbn; repeat split; auto.
Qed.

(** On a state with no browser and no context, [cleanup] calls nothing
    that could throw. *)
Lemma cleanup_of_nothing (w : world) (s : LocalSearchServer) :
  browser s = None -> contexts s = [] ->
  cleanup w s
  = (Returns tt, set_result None (set_activePages 0 (set_contexts [] s))).
Proof.
  intros Hb Hc. unfold cleanup. unfold_js. rewrite Hc. cbn. rewrite Hb.
  reflexivity.
Qed.

Lemma cleanup_runs (w : world) (s : LocalSearchServer) :
  (forall c, w_contextClose w c = None) -> w_browserClose w = None ->
  fst (cleanup w s) = Returns tt.
Proof.
  intros Hc Hb. unfold cleanup. unfold_js.
  destruct (close_each_fields w (contexts s) s) as (_ & _ & H).
  specialize (H Hc).
  destruct (close_each w (contexts s) s) as [out s1]. cbn in H. subst out.
  destruct (browser s1); [rewrite Hb|]; reflexivity.
Qed.

(** C7.  On a new instance [cleanup] returns and changes nothing.  When a
    [cleanup] returns, the browser is [null], the registry is empty, the
    counter is zero and the stored response is gone, and a second
    [cleanup] right after it returns too and changes nothing.  [cleanup]
    returns whenever no [close] of a context or of the browser rejects. *)
Theorem cleanup_safe_and_idempotent :
  (forall w, cleanup w new_server = (Returns tt, new_server)) /\
  (forall w s s',
      cleanup w s = (Returns tt, s') ->
      browser s' = None /\ contexts s' = [] /\ activePages s' = 0%Z /\
      result s' = None /\
      forall w', cleanup w' s' = (Returns tt, s')) /\
  (forall w s,
      (forall c, w_contextClose w c = None) -> w_browserClose w = None ->
      exists s', cleanup w s = (Returns tt, s')).
Proof.
  split; [|split].
  - intros w. reflexivity.
  - intros w s s' H. apply cleanup_returns in H.
    destruct H as (Hb & Hc & Ha & Hr & _). repeat split; auto.
    intros w'. rewrite cleanup_of_nothing by assumption.
    destruct s'; cbn in *; subst; reflexivity.
  - intros w s Hc Hb. pose proof (cleanup_runs w s Hc Hb) as H.
    destruct (cleanup w s) as [out s']. cbn in H. subst. eauto.
Qed.

Lemma cleanup_safe_and_idempotent_witness :
  let s := snd (search quiet (lit "q") no_options new_server) in
  contexts s <> [] /\
  exists s', cleanup quiet s = (Returns tt, s') /\
             browser s' = None /\ contexts s' = [] /\
             cleanup quiet s' = (Returns tt, s').
Proof.
  intro s. split; [vm_compute; discriminate|].
  destruct cleanup_safe_and_idempotent as (_ & Htwice & Hruns).
  destruct (Hruns quiet s) as [s' H]; try reflexivity.
  exists s'. destruct (Htwice quiet s s' H) as (Hb & Hc & _ & _ & Hagain).
  repeat split; auto.
Defined.

(** ** The registry of contexts *)

Section MapFacts.

Variable V : Type.
Implicit Types (m : Map V) (k : jsstring) (v : V).

Lemma map_get_set_same k v m : map_get k (map_set k v m) = Some v.
Proof.
  induction m as [|[k' v'] r IH]; cbn.
  - rewrite eqb_refl. reflexivity.
  - destruct (eqb k k') eqn:E; cbn.
    + rewrite eqb_refl. reflexivity.
    + rewrite E. exact IH.
Qed.




Lemma map_set_value k v m x :
  In x (map snd (map_set k v m)) -> x = v \/ In x (map snd m).
Proof.
  induction m as [|[k' v'] r IH]; cbn.
  - intros [H|[]]; auto.
  - destruct (eqb k k') eqn:E; cbn; intros [H|H]; auto.
    destruct (IH H); auto.
Qed.




Lemma map_delete_value k m x :
  In x (map snd (map_delete k m)) -> In x (map snd m).
Proof.
  induction m as [|[k' v'] r IH]; cbn; [auto|].
  destruct (eqb k k'); cbn; intros H; [auto | destruct H; auto].
Qed.




End MapFacts.












Lemma map_get_delete_same {V} (k : jsstring) (m : Map V) :
  map_get k (map_delete k m) = None.
Proof.
  induction m as [|[k' v'] r IH]; cbn; [reflexivity|].
  destruct (eqb k k') eqn:E; cbn; [exact IH|]. rewrite E. exact IH.
Qed.


(** What a step does to the registry and to the context of the call. *)
Lemma step_context (c : call) (s : LocalSearchServer) :
  uid (c_request (fst (step c s))) = uid (c_request c) /\
  (allocated s <= allocated (snd (step c s)))%nat /\
  ((c_context (fst (step c s)) = c_context c /\
    contexts (snd (step c s)) = contexts s) \/
   (exists x, c_context (fst (step c s)) = Some x /\
              map_get (uid (c_request c)) (contexts s) = Some x /\
              contexts (snd (step c s)) = contexts s) \/
   (exists x, c_context (fst (step c s)) = Some x /\
              (allocated s <= x < allocated (snd (step c s)))%nat /\
              contexts (snd (step c s))
              = map_set (uid (c_request c)) x (contexts s))).
Proof.
  destruct c as [w r u x p], w as [l nc np g wt ct pcl cc bc],
           s as [b cs m a res al].
  destruct p; unfold step, store; unfold_methods; cbn;
    repeat (case_atom; cbn); (split; [reflexivity|]); (split; [lia|]);
    try (left; split; reflexivity);
    try (right; left; eexists; repeat split; eassumption);
    try (right; right; eexists; repeat split; cbn; lia).
Qed.


Lemma resume_at_cases (i : nat) :
  forall cs s,
    resume_at i s cs = (s, cs) \/
    exists l1 c l2,
      cs = l1 ++ c :: l2 /\
      resume_at i s cs = (snd (step c s), l1 ++ fst (step c s) :: l2).
Proof.
  induction i as [|j IH]; intros [|c r] s; cbn; auto.
  - right. exists [], c, r. split; [reflexivity|].
    destruct (step c s); reflexivity.
  - destruct (IH r s) as [H|(l1 & c0 & l2 & Hr & H)]; rewrite H.
    + left. reflexivity.
    + right. exists (c :: l1), c0, l2. subst r. split; reflexivity.
Qed.






(** ** The parsers *)

(** Induction on the tree, with the property for all children. *)
Lemma node_induction (P : node -> Prop) :
  (forall d, P (Text d)) ->
  (forall name attribs children,
      Forall P children -> P (Element name attribs children)) ->
  forall n, P n.
Proof.
  intros Ht He. fix IH 1. intros [d|name attribs children].
  - apply Ht.
  - apply He. induction children as [|ch rest IHrest]; constructor.
    + apply IH.
    + exact IHrest.
Qed.

Lemma flat_map_nil {A B} (f : A -> list B) (l : list A) :
  flat_map f l = [] -> Forall (fun a => f a = []) l.
Proof.
  induction l as [|a l IH]; cbn; intros H; constructor.
  - destruct (f a); [reflexivity | discriminate].
  - apply IH. destruct (f a); [exact H | discriminate].
Qed.

(** A compound alone matches whatever the ancestors are. *)
Lemma matches_sel_single (c : compound) (anc : list head) (name : string)
      (attribs : list (string * jsstring)) :
  matches_sel [c] anc name attribs = matches c name attribs.
Proof. unfold matches_sel. cbn. apply andb_true_r. Qed.

(** Where [find] sees nothing to remove, [remove] leaves the tree. *)
Lemma remove1_nothing (c : compound) (n : node) :
  forall anc,
    select_in [c] anc n = [] ->
    remove1 c n = n /\
    match n with
    | Element name attribs _ => matches c name attribs = false
    | Text _ => True
    end.
Proof.
  induction n as [d|name attribs children IH] using node_induction;
    intros anc H; cbn [select_in remove1] in *.
  - auto.
  - rewrite matches_sel_single in H.
    destruct (matches c name attribs); [discriminate|]. cbn in H.
    split; [|reflexivity]. f_equal.
    apply flat_map_nil in H.
    induction children as [|ch rest IHrest]; cbn; [reflexivity|].
    inversion IH as [|? ? Hch Hrest]; subst.
    inversion H as [|? ? Hsel Hselrest]; subst.
    destruct (Hch _ Hsel) as [Hrem Hno].
    rewrite (IHrest Hrest Hselrest).
    destruct ch as [d|n' a' ch']; [reflexivity|].
    rewrite Hno, Hrem. reflexivity.
Qed.

Lemma remove_children_nothing (c : compound) (anc : list head)
      (children : list node) :
  Forall (fun ch => select_in [c] anc ch = []) children ->
  flat_map (fun ch =>
              match ch with
              | Text d => [Text d]
              | Element n' a' _ =>
                  if matches c n' a' then [] else [remove1 c ch]
              end) children
  = children.
Proof.
  induction children as [|ch more IH]; cbn [flat_map]; intros H;
    [reflexivity|].
  inversion H as [|? ? Hch Hmore]; subst.
  destruct (remove1_nothing c ch anc Hch) as [Hrem Hno].
  rewrite (IH Hmore).
  destruct ch as [d|n' a' ch']; [reflexivity|].
  rewrite Hno, Hrem. reflexivity.
Qed.

Lemma remove_found_nothing (c : compound) (sel : list node) :
  find [c] sel = [] -> remove_found c sel = sel.
Proof.
  unfold find, remove_found. intros H. apply flat_map_nil in H.
  induction sel as [|n rest IH]; cbn [map]; [reflexivity|].
  inversion H as [|? ? Hn Hrest]; subst. rewrite (IH Hrest). f_equal.
  destruct n as [d|name attribs children]; [reflexivity|].
  cbn [find1] in Hn. cbn [remove1]. f_equal.
  apply remove_children_nothing with (anc := [(name, attribs)]).
  apply flat_map_nil, Hn.
Qed.

(** The test [if (dateSpan.length)] changes nothing: the paragraphs are
    read without their date spans. *)
Lemma paragraph_text_stripped (paragraphs : list node) :
  paragraph_text paragraphs = stripped_text paragraphs.
Proof.
  unfold paragraph_text, stripped_text.
  destruct (find [news_dt] paragraphs) eqn:E; cbn [nonempty].
  - rewrite remove_found_nothing by exact E. reflexivity.
  - reflexivity.
Qed.

Lemma fold_push_item (items : list node) :
  forall contents,
    fold_left push_item items contents
    = contents ++ filter truthy (map item_text items).
Proof.
  induction items as [|item rest IH]; intros contents; cbn [fold_left].
  - cbn. rewrite app_nil_r. reflexivity.
  - rewrite IH. unfold push_item. fold (item_text item).
    cbn [map filter]. destruct (truthy (item_text item)).
    + rewrite <- app_assoc. reflexivity.
    + reflexivity.
Qed.

(** The [if]/[else] ladder of [parseBingSearchResults] is the choice of
    the first tier that is there. *)
Lemma bing_content_tiers (element : node) :
  bing_content element
  = first_present [tier_a element; tier_b element; tier_c element].
Proof.
  unfold bing_content, tier_a, tier_b, tier_c, first_present.
  fold (clamped element) (caption element) (list_items element).
  destruct (clamped element) eqn:Ea; cbn [nonempty];
    [|apply paragraph_text_stripped].
  destruct (caption element) eqn:Eb; cbn [nonempty];
    [|apply paragraph_text_stripped].
  destruct (list_items element) eqn:Ec; cbn [nonempty]; [reflexivity|].
  rewrite fold_push_item. reflexivity.
Qed.

(** C4 as it is written fails: in an entry whose clamped paragraph is
    there and empty and whose caption paragraph reads ['caption'], the
    first tier with text is the caption, and the parser gives ['']. *)
Lemma empty_clamp_hides_caption :
  bing_content empty_clamp_entry = [] /\
  first_nonempty [tier_a empty_clamp_entry; tier_b empty_clamp_entry;
                  tier_c empty_clamp_entry] = lit "caption" /\
  bing_content empty_clamp_entry
  <> first_nonempty [tier_a empty_clamp_entry; tier_b empty_clamp_entry;
                     tier_c empty_clamp_entry].
Proof.
  assert (H1 : bing_content empty_clamp_entry = []) by reflexivity.
  assert (H2 : first_nonempty [tier_a empty_clamp_entry;
                               tier_b empty_clamp_entry;
                               tier_c empty_clamp_entry] = lit "caption")
    by reflexivity.
  split; [exact H1 | split; [exact H2 |]].
  rewrite H1, H2. discriminate.
Qed.

(** C4, amended.  The content of a Bing entry is the text of the first
    tier whose nodes are in the entry, whether that text is empty or not:
    (a) the clamped paragraphs, read without their date spans; else (b)
    the caption paragraphs, read the same way; else (c) the list items,
    each by its [title] attribute when that is not empty and by its
    trimmed text otherwise, the non-empty ones joined with single spaces;
    and the empty string when no tier is there.  White space runs are
    made one space.  So when tier (a) is there it is chosen over (b) and
    (c). *)
Theorem bing_content_first_present_tier (element : node) :
  bing_content element
  = first_present [tier_a element; tier_b element; tier_c element] /\
  (forall t, tier_a element = Some t -> bing_content element = t) /\
  (clamped element <> [] ->
   bing_content element
   = replace_ws_runs
       (trim (text (remove_found news_dt (clamped element))))) /\
  (clamped element = [] -> caption element <> [] ->
   bing_content element
   = replace_ws_runs
       (trim (text (remove_found news_dt (caption element))))) /\
  (clamped element = [] -> caption element = [] ->
   bing_content element
   = match list_items element with
     | [] => []
     | items =>
         replace_ws_runs
           (trim (join (lit " ") (filter truthy (map item_text items))))
     end).
Proof.
  pose proof (bing_content_tiers element) as H.
  split; [exact H|]. rewrite H. cbn [first_present].
  split; [|split; [|split]].
  - intros t Ht. rewrite Ht. reflexivity.
  - intros Ha. unfold tier_a, stripped_text.
    destruct (clamped element); [congruence | reflexivity].
  - intros Ha Hb. unfold tier_a, tier_b, stripped_text. rewrite Ha.
    cbn [nonempty]. destruct (caption element); [congruence | reflexivity].
  - intros Ha Hb. unfold tier_a, tier_b, tier_c, items_text. rewrite Ha, Hb.
    cbn [nonempty]. destruct (list_items element); reflexivity.
Qed.

Lemma bing_content_first_present_tier_witness :
  tier_a dated_entry = Some (lit "first tier") /\
  tier_b dated_entry = Some (lit "second tier") /\
  bing_content dated_entry = lit "first tier" /\
  bing_content list_entry = lit "full text shown" /\
  bing_content captioned_container = lit "inside" /\
  bing_content listed_container = lit "item".
Proof.
  split; [reflexivity|]. split; [reflexivity|]. split; [|split; [|split]].
  - apply (proj1 (proj2 (bing_content_first_present_tier dated_entry))).
    reflexivity.
  - rewrite (proj1 (bing_content_first_present_tier list_entry)).
    reflexivity.
  - rewrite (proj1 (bing_content_first_present_tier captioned_container)).
    reflexivity.
  - rewrite (proj1 (bing_content_first_present_tier listed_container)).
    reflexivity.
Defined.

Lemma bing_visit_appends (results : list ExtractedResult) (element : node) :
  bing_visit results element = results ++ bing_candidate element.
Proof.
  unfold bing_candidate, bing_visit.
  destruct (bing_url element) as [u|]; [|symmetry; apply app_nil_r].
  destruct (truthy (bing_title element) && truthy u);
    [reflexivity | symmetry; apply app_nil_r].
Qed.

Lemma baidu_visit_appends (results : list ExtractedResult) (element : node) :
  baidu_visit results element = results ++ baidu_candidate element.
Proof.
  unfold baidu_candidate, baidu_visit.
  destruct (baidu_url element) as [u|]; [|symmetry; apply app_nil_r].
  destruct (truthy (baidu_title element) && truthy u
            && truthy (baidu_content element));
    [reflexivity | symmetry; apply app_nil_r].
Qed.

Lemma fold_visit {A B} (visit : list B -> A -> list B)
      (candidate : A -> list B) :
  (forall results a, visit results a = results ++ candidate a) ->
  forall elements results,
    fold_left visit elements results = results ++ flat_map candidate elements.
Proof.
  intros Hv. induction elements as [|a rest IH]; intros results; cbn.
  - symmetry. apply app_nil_r.
  - rewrite IH, Hv, <- app_assoc. reflexivity.
Qed.

(** The results are the candidates of the containers, in the order of
    the containers in the document. *)
Lemma parseBingSearchResults_candidates (html : document) :
  parseBingSearchResults html
  = flat_map bing_candidate (bing_containers html).
Proof.
  unfold parseBingSearchResults.
  rewrite (fold_visit bing_visit bing_candidate bing_visit_appends).
  reflexivity.
Qed.

Lemma parseBaiduSearchResults_candidates (html : document) :
  parseBaiduSearchResults html
  = flat_map baidu_candidate (baidu_containers html).
Proof.
  unfold parseBaiduSearchResults.
  rewrite (fold_visit baidu_visit baidu_candidate baidu_visit_appends).
  reflexivity.
Qed.

Lemma bing_candidate_spec (element : node) (r : ExtractedResult) :
  In r (bing_candidate element) <->
  bing_url element = Some (url r) /\ bing_title element = title r /\
  bing_content element = content r /\ title r <> [] /\ url r <> [].
Proof.
  unfold bing_candidate, bing_visit. cbn [app].
  destruct (bing_url element) as [u|].
  - destruct (truthy (bing_title element) && truthy u) eqn:E.
    + apply andb_true_iff in E. destruct E as [Et Eu].
      apply truthy_spec in Et, Eu. split.
      * intros [<-|[]]. cbn. auto.
      * intros (Hu & Ht & Hc & _). left. destruct r as [ru rt rc].
        cbn in *. congruence.
    + split; [intros []|]. intros (Hu & Ht & _ & Hnt & Hnu).
      inversion Hu; subst u. rewrite Ht in E.
      apply truthy_spec in Hnt, Hnu. rewrite Hnt, Hnu in E. discriminate.
  - split; [intros [] | intros (Hu & _); discriminate].
Qed.

Lemma baidu_candidate_spec (element : node) (r : ExtractedResult) :
  In r (baidu_candidate element) <->
  baidu_url element = Some (url r) /\ baidu_title element = title r /\
  baidu_content element = content r /\
  title r <> [] /\ url r <> [] /\ content r <> [].
Proof.
  unfold baidu_candidate, baidu_visit. cbn [app].
  destruct (baidu_url element) as [u|].
  - destruct (truthy (baidu_title element) && truthy u
              && truthy (baidu_content element)) eqn:E.
    + apply andb_true_iff in E. destruct E as [E Ec].
      apply andb_true_iff in E. destruct E as [Et Eu].
      apply truthy_spec in Et, Eu, Ec. split.
      * intros [<-|[]]. cbn. auto 6.
      * intros (Hu & Ht & Hc & _). left. destruct r as [ru rt rc].
        cbn in *. congruence.
    + split; [intros []|]. intros (Hu & Ht & Hc & Hnt & Hnu & Hnc).
      inversion Hu; subst u. rewrite Ht, Hc in E.
      apply truthy_spec in Hnt, Hnu, Hnc. rewrite Hnt, Hnu, Hnc in E.
      discriminate.
  - split; [intros [] | intros (Hu & _); discriminate].
Qed.

(** C5.  The Baidu parser returns, in the order of the containers, one
    result for each container whose title, link and content are all
    non-empty, and nothing for the others: a container with a title and a
    link whose content span is missing or empty is dropped.  The Bing
    parser returns one result for each container whose title and link are
    non-empty, whatever its content; the content is the empty string when
    no tier has text. *)
Theorem candidates_kept_and_dropped (html : document) :
  parseBaiduSearchResults html
  = flat_map baidu_candidate (baidu_containers html) /\
  parseBingSearchResults html
  = flat_map bing_candidate (bing_containers html) /\
  (forall r,
      In r (parseBaiduSearchResults html) <->
      exists element,
        In element (baidu_containers html) /\
        baidu_url element = Some (url r) /\ baidu_title element = title r /\
        baidu_content element = content r /\
        title r <> [] /\ url r <> [] /\ content r <> []) /\
  (forall r,
      In r (parseBingSearchResults html) <->
      exists element,
        In element (bing_containers html) /\
        bing_url element = Some (url r) /\ bing_title element = title r /\
        bing_content element = content r /\
        title r <> [] /\ url r <> []) /\
  (forall element,
      (forall t, In (Some t) [tier_a element; tier_b element; tier_c element]
                 -> t = []) ->
      bing_content element = []).
Proof.
  split; [apply parseBaiduSearchResults_candidates|].
  split; [apply parseBingSearchResults_candidates|].
  split; [|split].
  - intros r. rewrite parseBaiduSearchResults_candidates, in_flat_map.
    split; intros (element & Hin & H); exists element; split; auto;
      apply baidu_candidate_spec; exact H.
  - intros r. rewrite parseBingSearchResults_candidates, in_flat_map.
    split; intros (element & Hin & H); exists element; split; auto;
      apply bing_candidate_spec; exact H.
  - intros element H. rewrite bing_content_tiers.
    destruct (tier_a element) as [a|] eqn:Ea;
      [cbn; apply H; cbn; auto|].
    destruct (tier_b element) as [b|] eqn:Eb;
      [cbn; apply H; cbn; auto|].
    destruct (tier_c element) as [c|] eqn:Ec;
      [cbn; apply H; cbn; auto | reflexivity].
Qed.

Lemma candidates_kept_and_dropped_witness :
  In (mkResult (lit "http://d") (lit "D") [])
     (parseBingSearchResults [el "body" "" [bare_entry]]) /\
  In (mkResult (lit "http://g") (lit "G") (lit "inside"))
     (parseBingSearchResults [el "body" "" [captioned_container]]) /\
  ~ In (mkResult (lit "http://e") (lit "E") [])
       (parseBaiduSearchResults [el "body" "" [baidu_bare_entry]]) /\
  parseBaiduSearchResults [el "body" "" [baidu_bare_entry; baidu_full_entry]]
  = [mkResult (lit "http://f") (lit "F") (lit "about f")].
Proof.
  split; [|split; [|split]].
  - apply (proj1 (proj2 (proj2 (proj2
             (candidates_kept_and_dropped [el "body" "" [bare_entry]]))))).
    exists bare_entry. cbn [url title content].
    repeat split; try reflexivity; try discriminate. left. reflexivity.
  - apply (proj1 (proj2 (proj2 (proj2
             (candidates_kept_and_dropped
                [el "body" "" [captioned_container]]))))).
    exists captioned_container. cbn [url title content].
    repeat split; try reflexivity; try discriminate. left. reflexivity.
  - intros H.
    apply (proj1 (proj2 (proj2
             (candidates_kept_and_dropped
                [el "body" "" [baidu_bare_entry]])))) in H.
    destruct H as (element & _ & _ & _ & _ & _ & _ & Hc). apply Hc.
    reflexivity.
  - reflexivity.
Defined.

(* ================================================================== *)
(** * Further properties *)

Import Desktop Behaviour.

(** ** The address of a search *)

Lemma percent_safe (b : N) : (b < 256)%N -> forallb url_safe (percent b) = true.
Proof.
  intros Hb.
  assert (H : forallb (fun n => forallb url_safe (percent (N.of_nat n))) (seq 0 256) = true)
    by (vm_compute; reflexivity).
  rewrite forallb_forall in H.
  specialize (H (N.to_nat b)). rewrite N2Nat.id in H. apply H.
  apply in_seq. lia.
Qed.

Ltac byte_bound :=
  repeat match goal with
         | |- context [(?a mod 64)%N] =>
             lazymatch goal with
             | _ : (a mod 64 < 64)%N |- _ => fail
             | _ => pose proof (N.mod_lt a 64 ltac:(discriminate))
             end
         end;
  repeat match goal with
         | |- context [(?a / ?b)%N] =>
             let q := fresh "q" in
             let Hq := fresh "Hq" in
             remember (a / b)%N as q eqn:Hq;
             assert (q * b <= a)%N
               by (subst q; rewrite N.mul_comm; apply N.Div0.mul_div_le)
         end;
  lia.

Lemma utf8_bytes (cp : N) : (cp < 1114112)%N -> Forall (fun b => (b < 256)%N) (utf8 cp).
Proof.
  intros H. unfold utf8.
  destruct (cp <? 128)%N eqn:E1; [apply N.ltb_lt in E1|].
  2: destruct (cp <? 2048)%N eqn:E2; [apply N.ltb_lt in E2|].
  3: destruct (cp <? 65536)%N eqn:E3; [apply N.ltb_lt in E3|].
  all: repeat (apply Forall_cons; [byte_bound|]); apply Forall_nil.
Qed.

Lemma escapes_safe (cp : N) :
  (cp < 1114112)%N -> forallb url_safe (flat_map percent (utf8 cp)) = true.
Proof.
  intros H. pose proof (utf8_bytes H) as Hb.
  induction Hb as [|b bs Hb1 Hbs IH]; [reflexivity|].
  cbn [flat_map]. rewrite forallb_app, percent_safe by exact Hb1. exact IH.
Qed.

Lemma surrogate_bounds (c : N) :
  (is_lead c = true -> (55296 <= c <= 56319)%N) /\
  (is_trail c = true -> (56320 <= c <= 57343)%N).
Proof.
  unfold is_lead, is_trail. split; intros H; apply andb_true_iff in H;
    destruct H as [H1 H2]; apply N.leb_le in H1, H2; lia.
Qed.

(** Induction on strings that follows [encodeURIComponent]: one unit, or
    a pair of units, at a time. *)
Lemma units_induction (P : jsstring -> Prop) :
  P [] ->
  (forall c r, P r -> P (c :: r)) ->
  forall s, P s.
Proof. intros H0 H1. induction s; auto. Qed.

Lemma pairs_induction (P : jsstring -> Prop) :
  P [] ->
  (forall c, P [c]) ->
  (forall c d r, P r -> P (d :: r) -> P (c :: d :: r)) ->
  forall s, P s.
Proof.
  intros H0 H1 H2 s.
  assert (H : P s /\ forall c, P (c :: s)).
  { induction s as [|d r [IHr IHc]]; split; auto. }
  apply H.
Qed.

Lemma encodeURIComponent_cons (c : N) (r : jsstring) :
  encodeURIComponent (c :: r) =
  if unreserved c then option_map (cons c) (encodeURIComponent r)
  else if is_trail c then None
  else if is_lead c then
    match r with
    | d :: r' =>
        if is_trail d
        then option_map
               (app (flat_map percent
                       (utf8 ((c - 55296) * 1024 + (d - 56320) + 65536)%N)))
               (encodeURIComponent r')
        else None
    | [] => None
    end
  else option_map (app (flat_map percent (utf8 c))) (encodeURIComponent r).
Proof. reflexivity. Qed.

Lemma encodeURIComponent_safe (s : jsstring) :
  units16 s -> forall q, encodeURIComponent s = Some q -> forallb url_safe q = true.
Proof.
  unfold units16.
  induction s as [|c|c d r IHr IHd] using pairs_induction; intros Hu q Hq.
  - inversion Hq. reflexivity.
  - inversion Hu as [|? ? Hc _]; subst. rewrite encodeURIComponent_cons in Hq.
    cbn [encodeURIComponent option_map] in Hq.
    destruct (unreserved c) eqn:Eun.
    + inversion Hq. cbn. unfold url_safe. rewrite Eun. reflexivity.
    + destruct (is_trail c); [discriminate|].
      destruct (is_lead c); [discriminate|].
      inversion Hq. rewrite app_nil_r. apply escapes_safe. lia.
  - inversion Hu as [|? ? Hc Hu']; subst.
    inversion Hu' as [|? ? Hd Hu'']; subst.
    rewrite encodeURIComponent_cons in Hq.
    destruct (unreserved c) eqn:Eun.
    + destruct (encodeURIComponent (d :: r)) as [q'|] eqn:E; [|discriminate].
      inversion Hq. cbn [forallb]. unfold url_safe at 1. rewrite Eun.
      apply IHd; auto.
    + destruct (is_trail c) eqn:Et; [discriminate|].
      destruct (is_lead c) eqn:El.
      * destruct (is_trail d) eqn:Etd; [|discriminate].
        destruct (encodeURIComponent r) as [q'|] eqn:E; [|discriminate].
        inversion Hq. rewrite forallb_app.
        apply (proj1 (surrogate_bounds c)) in El.
        apply (proj2 (surrogate_bounds d)) in Etd.
        rewrite escapes_safe by lia. apply IHr; auto.
      * destruct (encodeURIComponent (d :: r)) as [q'|] eqn:E; [|discriminate].
        inversion Hq. rewrite forallb_app, escapes_safe by lia.
        apply IHd; auto.
Qed.

Lemma unreserved_ascii (c : N) : unreserved c = true -> (c < 127)%N.
Proof.
  unfold unreserved. intros H.
  repeat (apply orb_true_iff in H; destruct H as [H|H]);
    try (apply andb_true_iff in H; destruct H as [H1 H2];
         apply N.leb_le in H1, H2; lia);
    apply N.eqb_eq in H; lia.
Qed.

Lemma unreserved_no_surrogate (c : N) :
  unreserved c = true -> is_lead c = false /\ is_trail c = false.
Proof.
  intros H. apply unreserved_ascii in H. unfold is_lead, is_trail.
  split; apply andb_false_iff; left; apply N.leb_gt; lia.
Qed.

Lemma trail_not_lead (c : N) : is_trail c = true -> is_lead c = false.
Proof.
  intros H. apply (proj2 (surrogate_bounds c)) in H. unfold is_lead.
  apply andb_false_iff. right. apply N.leb_gt. lia.
Qed.

Lemma option_map_none {A B} (f : A -> B) (x : option A) :
  option_map f x = None <-> x = None.
Proof. destruct x; cbn; split; congruence. Qed.

Lemma encodeURIComponent_well_formed (s : jsstring) :
  encodeURIComponent s = None <-> well_formed s = false.
Proof.
  induction s as [|c|c d r IHr IHd] using pairs_induction.
  - cbn. split; discriminate.
  - rewrite encodeURIComponent_cons.
    cbn [encodeURIComponent option_map well_formed].
    destruct (unreserved c) eqn:Eun.
    + destruct (unreserved_no_surrogate c Eun) as [-> ->]. split; discriminate.
    + destruct (is_trail c) eqn:Et.
      * rewrite (trail_not_lead c Et). tauto.
      * destruct (is_lead c); [tauto | split; discriminate].
  - rewrite encodeURIComponent_cons.
    change (well_formed (c :: d :: r))
      with (if is_lead c then is_trail d && well_formed r
            else if is_trail c then false else well_formed (d :: r)).
    destruct (unreserved c) eqn:Eun.
    + destruct (unreserved_no_surrogate c Eun) as [-> ->].
      rewrite option_map_none. exact IHd.
    + destruct (is_trail c) eqn:Et.
      * rewrite (trail_not_lead c Et). tauto.
      * destruct (is_lead c).
        -- destruct (is_trail d); cbn [andb]; [|tauto].
           rewrite option_map_none. exact IHr.
        -- rewrite option_map_none. exact IHd.
Qed.

Lemma encodeURIComponent_verbatim (s : jsstring) :
  forallb unreserved s = true -> encodeURIComponent s = Some s.
Proof.
  induction s as [|c r IH]; cbn [forallb]; intros H; [reflexivity|].
  apply andb_true_iff in H. destruct H as [Hc Hr].
  rewrite encodeURIComponent_cons, Hc, (IH Hr). reflexivity.
Qed.

(** X1.  For a query of 16-bit code units that can be encoded, what
    [search] puts behind the prefix of the address has only unreserved
    characters and percent signs: no space, [&], [=], [#], [?], [/] or
    [+] of the query gets into the address as it is.  A query of
    unreserved characters only is put in unchanged. *)
Theorem encoded_query_is_url_safe (query q : jsstring) :
  units16 query ->
  encodeURIComponent query = Some q ->
  forallb url_safe q = true /\
  (forall c, In c q ->
             c <> 32 /\ c <> 38 /\ c <> 61 /\ c <> 35 /\ c <> 63 /\ c <> 47
             /\ c <> 43)%N /\
  (forallb unreserved query = true -> q = query).
Proof.
  intros Hu Hq. pose proof (encodeURIComponent_safe Hu Hq) as Hs.
  split; [exact Hs|]. split.
  - intros c Hin. rewrite forallb_forall in Hs. specialize (Hs c Hin).
    repeat split; intros ->; discriminate Hs.
  - intros Hplain. apply encodeURIComponent_verbatim in Hplain. congruence.
Qed.

Lemma encoded_query_is_url_safe_witness :
  encodeURIComponent (lit "a b&c=d") = Some (lit "a%20b%26c%3Dd") /\
  forallb url_safe (lit "a%20b%26c%3Dd") = true.
Proof.
  split; [reflexivity|].
  apply (@encoded_query_is_url_safe (lit "a b&c=d") (lit "a%20b%26c%3Dd")).
  - repeat constructor.
  - reflexivity.
Defined.

(** X2.  [encodeURIComponent] fails exactly on the strings that are not
    well-formed UTF-16.  With such a query [search] throws [URIError] and
    leaves the instance as it was, whatever the options and the browser:
    the error comes before [waitForPageSlot], and the call never takes a
    slot. *)
Theorem ill_formed_query_throws_before_the_gate
        (w : world) (query : jsstring) (o : options) (s : LocalSearchServer) :
  (encodeURIComponent query = None <-> well_formed query = false) /\
  (well_formed query = false ->
   search w query o s = (Throws URIError, s) /\
   c_pc (start w query o) = Done (inr URIError)).
Proof.
  split; [apply encodeURIComponent_well_formed|].
  intros H. apply encodeURIComponent_well_formed in H.
  rewrite search_unfold. unfold start. rewrite H. split; reflexivity.
Qed.

Lemma ill_formed_query_throws_before_the_gate_witness :
  search quiet [55357%N] no_options new_server = (Throws URIError, new_server).
Proof.
  apply (proj2 (ill_formed_query_throws_before_the_gate
                  quiet [55357%N] no_options new_server)).
  reflexivity.
Defined.

(** ** What the parsers return *)

Lemma drop_ws_starts (s : jsstring) : starts_ws (drop_ws s) = false.
Proof.
  induction s as [|c r IH]; cbn; [reflexivity|].
  destruct (is_ws c) eqn:E; [exact IH | cbn; exact E].
Qed.

Lemma ends_ws_rev (s : jsstring) : ends_ws (rev s) = starts_ws s.
Proof.
  destruct s as [|c r]; [reflexivity|]. cbn [rev starts_ws].
  induction (rev r) as [|d l IH]; [reflexivity|].
  cbn [app ends_ws]. destruct (l ++ [c]) eqn:E; [destruct l; discriminate|].
  exact IH.
Qed.

Lemma starts_ws_rev (s : jsstring) : starts_ws (rev s) = ends_ws s.
Proof. rewrite <- (rev_involutive s) at 2. symmetry. apply ends_ws_rev. Qed.

Lemma drop_ws_ends (s : jsstring) : ends_ws s = false -> ends_ws (drop_ws s) = false.
Proof.
  induction s as [|c r IH]; cbn [drop_ws]; [auto|].
  destruct (is_ws c) eqn:E; [|auto].
  intros H. apply IH. destruct r as [|d r']; [reflexivity | exact H].
Qed.

Lemma trim_trimmed (s : jsstring) : trimmed (trim s) = true.
Proof.
  unfold trimmed, trim.
  rewrite ends_ws_rev, drop_ws_starts, starts_ws_rev.
  rewrite drop_ws_ends; [reflexivity|].
  rewrite ends_ws_rev. apply drop_ws_starts.
Qed.

Lemma ws_space : is_ws 32 = true.
Proof. reflexivity. Qed.

Lemma collapse_in_run_starts (s : jsstring) : starts_ws (collapse true s) = false.
Proof.
  induction s as [|c r IH]; cbn; [reflexivity|].
  destruct (is_ws c) eqn:E; [exact IH | cbn; exact E].
Qed.

Lemma collapse_single_spaced (s : jsstring) :
  forall b, single_spaced (collapse b s) = true.
Proof.
  induction s as [|c r IH]; intros b; cbn [collapse]; [reflexivity|].
  destruct (is_ws c) eqn:E.
  - destruct b; [apply IH|].
    cbn [single_spaced]. rewrite collapse_in_run_starts, IH. reflexivity.
  - cbn [single_spaced]. rewrite E, IH. reflexivity.
Qed.

Lemma collapse_starts (s : jsstring) :
  starts_ws s = false -> forall b, starts_ws (collapse b s) = false.
Proof.
  destruct s as [|c r]; cbn; [reflexivity|].
  intros E b. rewrite E. cbn. exact E.
Qed.

Lemma collapse_ends (s : jsstring) :
  ends_ws s = false ->
  forall b, ends_ws (collapse b s) = false /\ (s <> [] -> collapse b s <> []).
Proof.
  induction s as [|c r IH]; intros H b; [cbn; auto|].
  destruct r as [|d r'].
  - cbn in H. cbn. rewrite H. cbn. rewrite H. split; [reflexivity | discriminate].
  - change (ends_ws (c :: d :: r')) with (ends_ws (d :: r')) in H.
    assert (Ht : d :: r' <> []) by discriminate.
    remember (d :: r') as t eqn:Et. clear Et.
    cbn [collapse]. destruct (is_ws c) eqn:E.
    + destruct (IH H true) as [H1 H2]. specialize (H2 Ht).
      destruct b; [auto|].
      destruct (collapse true t) eqn:Ec; [congruence|].
      split; [exact H1 | discriminate].
    + destruct (IH H false) as [H1 H2]. specialize (H2 Ht).
      destruct (collapse false t) eqn:Ec; [congruence|].
      split; [exact H1 | discriminate].
Qed.

Lemma replace_trim_normalised (s : jsstring) :
  normalised (replace_ws_runs (trim s)) = true.
Proof.
  pose proof (trim_trimmed s) as H. unfold trimmed in H.
  apply andb_true_iff in H. destruct H as [Hs He].
  apply negb_true_iff in Hs, He.
  unfold normalised, trimmed, replace_ws_runs.
  rewrite (collapse_starts _ Hs), (proj1 (collapse_ends _ He false)),
    collapse_single_spaced. reflexivity.
Qed.

Lemma bing_content_normalised (element : node) :
  normalised (bing_content element) = true.
Proof.
  unfold bing_content, paragraph_text.
  repeat match goal with
         | |- context [if nonempty ?x then _ else _] => destruct (nonempty x)
         end;
    try apply replace_trim_normalised; reflexivity.
Qed.

(** X3.  Every result of the Bing parser has a non-empty title and link,
    a title without white space at its ends, and a content that is
    trimmed and single-spaced (every white space in it is one U+0020
    between two other characters).  Every result of the Baidu parser has
    a non-empty title, link and content, title and content without white
    space at their ends. *)
Theorem parsed_results_are_clean (html : document) (r : ExtractedResult) :
  (In r (parseBingSearchResults html) ->
   title r <> [] /\ url r <> [] /\ trimmed (title r) = true /\
   normalised (content r) = true) /\
  (In r (parseBaiduSearchResults html) ->
   title r <> [] /\ url r <> [] /\ content r <> [] /\
   trimmed (title r) = true /\ trimmed (content r) = true).
Proof.
  split; intros H.
  - rewrite parseBingSearchResults_candidates in H. apply in_flat_map in H.
    destruct H as (element & _ & H). apply bing_candidate_spec in H.
    destruct H as (_ & Ht & Hc & Hnt & Hnu). rewrite <- Ht, <- Hc.
    repeat split; try congruence.
    + apply trim_trimmed.
    + apply bing_content_normalised.
  - rewrite parseBaiduSearchResults_candidates in H. apply in_flat_map in H.
    destruct H as (element & _ & H). apply baidu_candidate_spec in H.
    destruct H as (_ & Ht & Hc & Hnt & Hnu & Hnc). rewrite <- Ht, <- Hc.
    repeat split; try congruence; apply trim_trimmed.
Qed.

Lemma parsed_results_are_clean_witness :
  parseBingSearchResults two_entries
  = [mkResult (lit "http://b") (lit "B") (lit "first tier");
     mkResult (lit "http://c") (lit "C") (lit "full text shown")] /\
  normalised (lit "first tier") = true.
Proof.
  split; [reflexivity|].
  apply (proj1 (parsed_results_are_clean
                  two_entries
                  (mkResult (lit "http://b") (lit "B") (lit "first tier")))).
  left. reflexivity.
Defined.

Lemma remove1_kids_clean (c : compound) (n : node) :
  forall anc, flat_map (select_in [c] anc) (kids (remove1 c n)) = [].
Proof.
  induction n as [d|name attribs children IH] using node_induction;
    intros anc; [reflexivity|].
  cbn [remove1 kids].
  induction children as [|ch rest IHrest]; [reflexivity|].
  inversion IH as [|? ? Hch Hrest]; subst.
  cbn [flat_map]. rewrite flat_map_app, (IHrest Hrest), app_nil_r.
  destruct ch as [d|n' a' ch']; [reflexivity|].
  destruct (matches c n' a') eqn:E; [reflexivity|].
  cbn [flat_map]. rewrite app_nil_r.
  specialize (Hch ((n', a') :: anc)).
  cbn [remove1 kids] in Hch. cbn [remove1 select_in].
  rewrite matches_sel_single, E. cbn [app]. exact Hch.
Qed.

Lemma find_after_remove (c : compound) (sel : list node) :
  find [c] (remove_found c sel) = [].
Proof.
  unfold find, remove_found.
  induction sel as [|n rest IH]; [reflexivity|].
  cbn [map flat_map]. rewrite IH, app_nil_r.
  destruct n as [d|name attribs children]; [reflexivity|].
  exact (remove1_kids_clean c (Element name attribs children)
                            [(name, attribs)]).
Qed.

(** X4.  After [find(c).remove()] on a clone nothing in the clone matches
    [c], and removing once more changes nothing.  So the text read from
    paragraphs is the same whether or not their date spans were already
    taken out; and the Baidu title of an entry is the trimmed text of the
    anchors of its title once their [em] elements are removed, in which no
    [em] element is left, and the trimmed text of the anchors as they are
    when they have no [em] element. *)
Theorem removal_leaves_no_match (c : compound) (sel : list node) :
  find [c] (remove_found c sel) = [] /\
  remove_found c (remove_found c sel) = remove_found c sel /\
  paragraph_text (remove_found news_dt sel) = paragraph_text sel /\
  (forall element,
      find [tag_only "em"]
           (remove_found (tag_only "em") (find title_anchors [element])) = [] /\
      baidu_title element
      = trim (text (remove_found (tag_only "em")
                                 (find title_anchors [element]))) /\
      (find [tag_only "em"] (find title_anchors [element]) = [] ->
       baidu_title element = trim (text (find title_anchors [element])))).
Proof.
  split; [apply find_after_remove|].
  assert (Hidem : forall c0 sel0,
             remove_found c0 (remove_found c0 sel0) = remove_found c0 sel0)
    by (intros; apply remove_found_nothing, find_after_remove).
  split; [apply Hidem|]. split.
  - rewrite !paragraph_text_stripped. unfold stripped_text.
    rewrite Hidem. reflexivity.
  - intros element. split; [apply find_after_remove|].
    split; [reflexivity|].
    intros Hno. unfold baidu_title. fold title_anchors.
    rewrite (remove_found_nothing _ _ Hno). reflexivity.
Qed.

Lemma removal_leaves_no_match_witness :
  find [tag_only "em"] (find title_anchors [baidu_full_entry]) <> [] /\
  baidu_title baidu_full_entry = lit "F" /\
  baidu_title baidu_bare_entry
  = trim (text (find title_anchors [baidu_bare_entry])).
Proof.
  split; [discriminate|].
  destruct (@removal_leaves_no_match (tag_only "em") [baidu_full_entry])
    as (_ & _ & _ & H).
  split.
  - rewrite (proj1 (proj2 (H baidu_full_entry))). reflexivity.
  - apply (proj2 (proj2 (H baidu_bare_entry))). reflexivity.
Defined.

(** ** Sessions and the browser *)

Lemma openUrl_reuses_session (w : world) (uid url : jsstring)
      (s : LocalSearchServer) (c : nat) (l n : option error) :
  map_get uid (contexts s) = Some c ->
  openUrlInSearchWindow (with_launch l n w) uid url s
  = openUrlInSearchWindow w uid url s /\
  allocated (snd (openUrlInSearchWindow w uid url s)) = allocated s /\
  contexts (snd (openUrlInSearchWindow w uid url s)) = contexts s /\
  browser (snd (openUrlInSearchWindow w uid url s)) = browser s.
Proof.
  destruct w as [l0 nc np g wt ct pcl cc bc], s as [b cs m a res al].
  unfold with_launch. unfold_methods; cbn. intros Hget.
  destruct (a >=? m)%Z; cbn; [auto|]. rewrite Hget. cbn.
  destruct np, (g url), wt, (ct url), pcl; cbn; auto.
Qed.

(** X5.  When the registry has a context for the uid of a call, the
    call neither launches a browser nor makes a context: [search] does the
    same whatever [chromium.launch] and [browser.newContext] would do, and
    it leaves the registry, the browser and the objects made as they
    were. *)
Theorem search_reuses_session
        (w : world) (query : jsstring) (o : options) (s : LocalSearchServer)
        (c : nat) (l n : option error) :
  map_get (uid (merge query o)) (contexts s) = Some c ->
  search (with_launch l n w) query o s = search w query o s /\
  allocated (snd (search w query o s)) = allocated s /\
  contexts (snd (search w query o s)) = contexts s /\
  browser (snd (search w query o s)) = browser s.
Proof.
  intros Hget. rewrite !search_unfold.
  destruct (encodeURIComponent query) as [q|]; [|auto].
  destruct (@openUrl_reuses_session w (uid (merge query o))
              (address (merge query o) q) s c l n Hget)
    as (He & Ha & Hc & Hb).
  rewrite He.
  destruct (openUrlInSearchWindow w (uid (merge query o))
                                  (address (merge query o) q) s)
    as [[html|e|] s1]; cbn in *; auto.
Qed.

Lemma search_reuses_session_witness :
  let s := snd (search quiet (lit "first") no_options new_server) in
  search (with_launch (Some (Rejected 1)) (Some (Rejected 2)) quiet)
         (lit "second") no_options s
  = search quiet (lit "second") no_options s.
Proof.
  intro s.
  apply (@search_reuses_session quiet (lit "second") no_options s 1%nat
           (Some (Rejected 1)) (Some (Rejected 2))).
  reflexivity.
Defined.

Lemma openUrl_returns_state (w : world) (uid url : jsstring)
      (s s' : LocalSearchServer) (html : document) :
  openUrlInSearchWindow w uid url s = (Returns html, s') ->
  activePages s' = activePages s /\
  maxConcurrentPages s' = maxConcurrentPages s /\
  (activePages s < maxConcurrentPages s)%Z /\
  exists c, map_get uid (contexts s') = Some c.
Proof.
  destruct w as [l nc np g wt ct pcl cc bc], s as [b cs m a res al].
  unfold_methods; cbn.
  destruct (a >=? m)%Z eqn:Hfull; cbn; [discriminate|].
  apply geb_false in Hfull.
  destruct (map_get uid cs) as [c0|] eqn:Hget; cbn.
  - destruct np, (g url), wt, (ct url), pcl; cbn; try discriminate.
    intros H; inversion H; subst; cbn. repeat split; try lia. eauto.
  - destruct b; [|destruct l; [discriminate|]]; destruct nc; cbn; try discriminate;
      destruct np, (g url), wt, (ct url), pcl; cbn; try discriminate;
      intros H; inversion H; subst; cbn; (repeat split; try lia);
      eexists; apply map_get_set_same.
Qed.

Lemma step_own (c : call) (s : LocalSearchServer) :
  c_request (fst (step c s)) = c_request c /\
  ((activePages (snd (step c s)) - activePages s
    = slot_of (c_pc (fst (step c s))) - slot_of (c_pc c))%Z \/
   ((exists e, c_pc (fst (step c s)) = Done (inr e)) /\
    (activePages (snd (step c s)) - activePages s
     = 1 - slot_of (c_pc c))%Z)) /\
  (forall r, c_pc (fst (step c s)) = Done (inl r) ->
             c_pc c = Done (inl r) \/
             (c_pc c <> AtWaitForPageSlot /\
              resp_query r = Server.query (c_request c))) /\
  (c_pc c = AtWaitForPageSlot ->
   c_pc (fst (step c s)) = AtWaitForPageSlot \/
   (gate_open s = true /\ c_pc (fst (step c s)) = AtContextsGet)).
Proof.
  destruct c as [w r u x p], w as [l nc np g wt ct pcl cc bc],
           s as [b cs m a res al].
  unfold gate_open, slot_of.
  destruct p; unfold step, store; unfold_methods; cbn;
    repeat (case_atom; cbn);
    repeat match goal with
           | H : (_ >=? _)%Z = false |- _ => apply geb_false in H
           | H : (_ >=? _)%Z = true |- _ => apply geb_true in H
           end;
    (split; [reflexivity|]);
    (split; [first [left; lia | right; split; [eauto | lia]]|]);
    (split; [intros ? H; first [discriminate H
                                | inversion H; subst; first [left; reflexivity | right; split; [discriminate | reflexivity]]]|]);
    intros H; first [discriminate H | left; reflexivity | right; split; [apply Z.ltb_lt; lia | reflexivity]].
Qed.

Lemma own_steps_done (ss : list LocalSearchServer) :
  forall (c : call) (x : SearchResponse + error),
    c_pc c = Done x -> own_steps c ss = (c, 0%Z).
Proof.
  induction ss as [|s rest IH]; intros c x H; [reflexivity|].
  cbn [own_steps].
  assert (E : step c s = (c, s)) by (unfold step; rewrite H; reflexivity).
  rewrite E, (IH c x H). f_equal. lia.
Qed.

Lemma own_steps_account (ss : list LocalSearchServer) :
  forall (c c' : call) (d : Z),
    own_steps c ss = (c', d) ->
    c_request c' = c_request c /\
    ((d + slot_of (c_pc c) = slot_of (c_pc c'))%Z \/
     ((exists e, c_pc c' = Done (inr e)) /\ (d + slot_of (c_pc c) = 1)%Z)) /\
    (forall r, c_pc c' = Done (inl r) ->
               c_pc c = Done (inl r) \/
               resp_query r = Server.query (c_request c)) /\
    (c_pc c = AtWaitForPageSlot ->
     c_pc c' = AtWaitForPageSlot \/ exists s, In s ss /\ gate_open s = true).
Proof.
  induction ss as [|s rest IH]; intros c c' d H.
  - cbn in H. inversion H; subst.
    split; [reflexivity|]. split; [left; lia|]. split; auto.
  - cbn [own_steps] in H.
    pose proof (step_own c s) as (Hr & Hd & Hq & Hg).
    destruct (step c s) as [c1 s1] eqn:E. cbn [fst snd] in *.
    destruct (own_steps c1 rest) as [c2 d1] eqn:E1.
    inversion H; subst c2 d; clear H.
    destruct Hd as [Hd|[[e He] Hd]].
    + destruct (IH c1 c' d1 E1) as (Hr1 & Hd1 & Hq1 & Hg1).
      split; [congruence|]. split; [|split].
      * destruct Hd1 as [Hd1|[He Hd1]]; [left; lia | right; split; [exact He | lia]].
      * intros r Hfin. destruct (Hq1 r Hfin) as [H1|H1].
        -- destruct (Hq r H1) as [H2|[_ H2]]; auto.
        -- right. rewrite <- Hr. exact H1.
      * intros Hw. destruct (Hg Hw) as [H1|[Ho H1]].
        -- destruct (Hg1 H1) as [H2|(s0 & Hin & Ho)]; [left; exact H2|].
           right. exists s0. split; [right; exact Hin | exact Ho].
        -- right. exists s. split; [left; reflexivity | exact Ho].
    + rewrite (own_steps_done rest c1 He) in E1. inversion E1; subst c' d1.
      split; [exact Hr|]. split; [|split].
      * right. split; [eauto | lia].
      * intros r Hfin. congruence.
      * intros Hw. destruct (Hg Hw) as [H1|[Ho H1]]; [congruence|].
        right. exists s. split; [left; reflexivity | exact Ho].
Qed.

(** X6.  Whatever the other calls and the events do between the steps of
    a [search] call, what the call itself has added to [activePages] is 0
    or 1: 1 while it holds a slot, 0 while it is still at the polling
    loop.  When the call has returned, it has added 0, the response
    carries the query it was given, and at one of its steps the call
    found the gate open. *)
Theorem returning_call_gives_its_slot_back
        (w : world) (query : jsstring) (o : options)
        (ss : list LocalSearchServer) (c : call) (d : Z) :
  own_steps (start w query o) ss = (c, d) ->
  (0 <= d <= 1)%Z /\
  (holds_slot (c_pc c) = true -> d = 1%Z) /\
  (c_pc c = AtWaitForPageSlot -> d = 0%Z) /\
  (forall r, c_pc c = Done (inl r) ->
             d = 0%Z /\ resp_query r = query /\
             exists s, In s ss /\ gate_open s = true).
Proof.
  intros H.
  destruct (own_steps_account _ _ H) as (Hr & Hd & Hq & Hg).
  assert (Hs : slot_of (c_pc (start w query o)) = 0%Z)
    by (unfold slot_of; rewrite start_holds_nothing; reflexivity).
  rewrite Hs in Hd.
  assert (Hreq : Server.query (c_request (start w query o)) = query)
    by (unfold start; destruct (encodeURIComponent query); reflexivity).
  unfold slot_of in Hd.
  split; [|split; [|split]].
  - destruct Hd as [Hd|[_ Hd]]; [destruct (holds_slot (c_pc c))|]; lia.
  - intros Hh. destruct Hd as [Hd|[[e He] _]];
      [rewrite Hh in Hd; lia | rewrite He in Hh; discriminate].
  - intros Hw. destruct Hd as [Hd|[[e He] _]];
      [rewrite Hw in Hd; cbn in Hd; lia | congruence].
  - intros r Hfin.
    assert (Hst : c_pc (start w query o) = AtWaitForPageSlot).
    { unfold start in *. destruct (encodeURIComponent query); [reflexivity|].
      erewrite own_steps_done in H by reflexivity.
      inversion H; subst c. discriminate Hfin. }
    split; [|split].
    + destruct Hd as [Hd|[[e He] _]];
        [rewrite Hfin in Hd; cbn in Hd; lia | congruence].
    + destruct (Hq r Hfin) as [H1|H1]; congruence.
    + destruct (Hg Hst) as [H1|H1]; [congruence | exact H1].
Qed.

Lemma returning_call_gives_its_slot_back_witness :
  gate_open both_busy = false /\
  exists c r,
    own_steps (start quiet (lit "q") no_options) crowded = (c, 0%Z) /\
    c_pc c = Done (inl r) /\
    resp_query r = lit "q".
Proof.
  split; [reflexivity|].
  destruct (own_steps (start quiet (lit "q") no_options) crowded)
    as [c d] eqn:E.
  assert (Hp : exists r, c_pc c = Done (inl r))
    by (vm_compute in E; inversion E; subst c; cbn; eauto).
  destruct Hp as [r Hp]. exists c, r.
  destruct (@returning_call_gives_its_slot_back
              quiet (lit "q") no_options crowded c d E)
    as (_ & _ & _ & Hfin).
  destruct (Hfin r Hp) as (Hd & Hq & _).
  rewrite Hd. repeat split; assumption.
Defined.

(** X7.  When [getOrCreateContext] throws, the uid had no context and the
    registry is as before.  Either the launch rejected and the state is
    unchanged, or the making of the context rejected and the browser is
    kept; in both cases a later call for the uid returns a context as
    soon as the browser rejects nothing. *)
Theorem failed_getOrCreateContext_registers_nothing
        (w : world) (uid : jsstring) (s s' : LocalSearchServer) (e : error) :
  getOrCreateContext w uid s = (Throws e, s') ->
  contexts s' = contexts s /\
  map_get uid (contexts s) = None /\
  ((w_launch w = Some e /\ browser s = None /\ s' = s) \/
   (w_newContext w = Some e /\ browser s' <> None)) /\
  (forall w', w_launch w' = None -> w_newContext w' = None ->
              exists c s'', getOrCreateContext w' uid s' = (Returns c, s'')).
Proof.
  destruct w as [l nc np g wt ct pcl cc bc], s as [b cs m a res al].
  unfold_methods; cbn.
  destruct (map_get uid cs) as [c0|] eqn:Hget; cbn; [discriminate|].
  destruct b as [b|]; [|destruct l as [e0|]]; destruct nc as [e1|]; cbn;
    try discriminate; intros H; inversion H; subst; cbn;
    (split; [reflexivity|]); (split; [reflexivity|]);
    (split; [first [left; repeat split; reflexivity
                   | right; split; [reflexivity | discriminate]]|]);
    intros [l' nc' np' g' wt' ct' pcl' cc' bc']; cbn; intros -> ->;
    rewrite Hget; cbn; eauto.
Qed.

Lemma failed_getOrCreateContext_registers_nothing_witness :
  exists s',
    getOrCreateContext newContext_rejects (lit "u") new_server
    = (Throws (Rejected 2), s') /\
    contexts s' = [] /\
    exists c s'', getOrCreateContext quiet (lit "u") s' = (Returns c, s'').
Proof.
  exists (snd (getOrCreateContext newContext_rejects (lit "u") new_server)).
  split; [reflexivity|].
  destruct (@failed_getOrCreateContext_registers_nothing
              newContext_rejects (lit "u") new_server
              (snd (getOrCreateContext newContext_rejects (lit "u") new_server))
              (Rejected 2) eq_refl)
    as (Hc & _ & _ & Hretry).
  split; [exact Hc|]. apply Hretry; reflexivity.
Defined.

(** X18.  While the instance has a browser, [chromium.launch] is not
    called again: [initializeBrowser] returns the browser at once, and
    [getOrCreateContext] does the same whatever the launch would do and
    keeps the browser. *)
Theorem browser_is_launched_once
        (w : world) (uid : jsstring) (s : LocalSearchServer) (b : nat)
        (l : option error) :
  browser s = Some b ->
  initializeBrowser w s = (Returns b, s) /\
  getOrCreateContext (with_launch l (w_newContext w) w) uid s
  = getOrCreateContext w uid s /\
  browser (snd (getOrCreateContext w uid s)) = Some b.
Proof.
  destruct w as [l0 nc np g wt ct pcl cc bc], s as [b0 cs m a res al].
  unfold with_launch. unfold_methods; cbn. intros ->. cbn.
  split; [reflexivity|].
  destruct (map_get uid cs); cbn; [auto|].
  destruct nc; cbn; auto.
Qed.

Lemma browser_is_launched_once_witness :
  let s := snd (getOrCreateContext quiet (lit "u1") new_server) in
  getOrCreateContext launch_rejects (lit "u2") s
  = getOrCreateContext quiet (lit "u2") s.
Proof.
  intro s.
  apply (proj1 (proj2 (@browser_is_launched_once
                         quiet (lit "u2") s 0%nat (Some (Rejected 1)) eq_refl))).
Defined.

Lemma map_get_delete_other {V} (k k0 : jsstring) (m : Map V) :
  k <> k0 -> map_get k (map_delete k0 m) = map_get k m.
Proof.
  intros Hne. induction m as [|[k' v'] r IH]; cbn; [reflexivity|].
  destruct (eqb k0 k') eqn:E0; cbn.
  - apply eqb_eq in E0. subst k'. apply eqb_neq in Hne. rewrite Hne. exact IH.
  - destruct (eqb k k'); [reflexivity | exact IH].
Qed.

Lemma getOrCreateContext_fresh (w : world) (uid : jsstring)
      (s s' : LocalSearchServer) (c : nat) :
  map_get uid (contexts s) = None ->
  getOrCreateContext w uid s = (Returns c, s') ->
  (allocated s <= c < allocated s')%nat /\
  contexts s' = map_set uid c (contexts s) /\
  (browser s = None ->
   exists b, browser s' = Some b /\ (allocated s <= b < allocated s')%nat) /\
  (browser s <> None -> browser s' = browser s).
Proof.
  destruct w as [l nc np g wt ct pcl cc bc], s as [b cs m a res al].
  unfold_methods; cbn. intros Hget. rewrite Hget. cbn.
  destruct b as [b|]; [|destruct l as [e0|]]; destruct nc as [e1|]; cbn;
    try discriminate; intros H; inversion H; subst; cbn;
    (split; [lia|]); (split; [reflexivity|]); split;
    try (intros; congruence); try (intros _; eexists; split; [reflexivity|lia]).
Qed.

Lemma step_objects_made (c : call) (s : LocalSearchServer) :
  objects_made s -> objects_made (snd (step c s)).
Proof.
  unfold objects_made. intros [Hb Hc].
  destruct (step_context c s) as (_ & Hal & Hcases).
  assert (Hbr : forall b, browser (snd (step c s)) = Some b ->
                          (b < allocated (snd (step c s)))%nat).
  { revert Hb. clear.
    destruct c as [w r u x p], w as [l nc np g wt ct pcl cc bc],
             s as [b cs m a res al].
    destruct p; unfold step, store; unfold_methods; cbn;
      repeat (case_atom; cbn); intros Hb b' Hb';
      try (specialize (Hb _ Hb'); lia);
      try (inversion Hb'; lia). }
  split; [exact Hbr|].
  intros c0 Hin.
  destruct Hcases as [(_ & Hm)|[(x & _ & _ & Hm)|(x & _ & Hr & Hm)]];
    rewrite Hm in Hin.
  - specialize (Hc _ Hin). lia.
  - specialize (Hc _ Hin). lia.
  - apply map_set_value in Hin. destruct Hin as [->|Hin]; [lia|].
    specialize (Hc _ Hin). lia.
Qed.

Lemma run_objects_made (acts : list action) :
  forall sys, objects_made (server sys) -> objects_made (server (run acts sys)).
Proof.
  unfold run. induction acts as [|a acts IH]; intros sys H; cbn; auto.
  apply IH. destruct sys as [s cs]. destruct a as [w q o|i|uid|]; cbn in *.
  - exact H.
  - destruct (resume_at_cases i cs s) as [E|(l1 & c & l2 & _ & E)];
      rewrite E; cbn; [exact H | apply step_objects_made, H].
  - destruct H as [Hb Hc]. split; [exact Hb|].
    intros c Hin. cbn in Hin. apply map_delete_value in Hin. auto.
  - split; [discriminate | intros c []].
Qed.

Lemma new_server_objects_made (m : Z) : objects_made (new_server_with m).
Proof. split; [discriminate | intros c []]. Qed.

(** X8.  The listener of ['disconnected'] empties the instance of browser
    and sessions: the next [getOrCreateContext] launches a new browser and
    makes a new context, neither of them an object the instance had
    before, and the registry then holds that context alone.  (The
    condition holds in every state reached from a new instance by calls
    and events, [run_objects_made].) *)
Theorem disconnect_invalidates_sessions
        (w : world) (uid : jsstring) (s s' : LocalSearchServer) (c : nat) :
  objects_made s ->
  getOrCreateContext w uid (on_disconnected s) = (Returns c, s') ->
  browser (on_disconnected s) = None /\
  contexts (on_disconnected s) = [] /\
  ~ In c (map snd (contexts s)) /\
  contexts s' = [(uid, c)] /\
  (exists b, browser s' = Some b /\ browser s <> Some b).
Proof.
  intros [Hb Hc] H.
  apply getOrCreateContext_fresh in H; [|reflexivity].
  destruct H as (Hr & Hs & Hnew & _). cbn in *.
  split; [reflexivity|]. split; [reflexivity|]. split; [|split].
  - intros Hin. specialize (Hc _ Hin). lia.
  - exact Hs.
  - destruct (Hnew eq_refl) as (b & Hb' & Hrange). exists b.
    split; [exact Hb'|].
    intros Hold. specialize (Hb _ Hold). lia.
Qed.

Lemma disconnect_invalidates_sessions_witness :
  let s := snd (getOrCreateContext quiet (lit "u") new_server) in
  contexts s = [(lit "u", 1%nat)] /\
  exists c s',
    getOrCreateContext quiet (lit "u") (on_disconnected s) = (Returns c, s') /\
    ~ In c (map snd (contexts s)).
Proof.
  intro s. split; [reflexivity|].
  exists 3%nat, (snd (getOrCreateContext quiet (lit "u") (on_disconnected s))).
  split; [reflexivity|].
  assert (Hom : objects_made s).
  { split; [intros b Hb; inversion Hb; cbn; lia|].
    intros c [<-|[]]. cbn. lia. }
  exact (proj1 (proj2 (proj2
           (@disconnect_invalidates_sessions
              quiet (lit "u") s
              (snd (getOrCreateContext quiet (lit "u") (on_disconnected s)))
              3%nat Hom eq_refl)))).
Defined.

(** X9.  The listener of ['close'] of a context takes the entry of its
    uid out of the registry and no other: the sessions of the other uids
    are returned as before, without any call to the browser, and the next
    call for the closed uid makes a context that the registry did not
    have. *)
Theorem close_event_removes_one_session
        (uid : jsstring) (s : LocalSearchServer) :
  map_get uid (contexts (on_close uid s)) = None /\
  (forall k, k <> uid ->
             map_get k (contexts (on_close uid s)) = map_get k (contexts s)) /\
  (forall w k c, k <> uid -> map_get k (contexts s) = Some c ->
                 getOrCreateContext w k (on_close uid s)
                 = (Returns c, on_close uid s)) /\
  (forall w c s', objects_made s ->
                  getOrCreateContext w uid (on_close uid s) = (Returns c, s') ->
                  ~ In c (map snd (contexts s))).
Proof.
  split; [apply map_get_delete_same|]. split; [|split].
  - intros k Hk. apply map_get_delete_other, Hk.
  - intros w k c Hk Hget. unfold getOrCreateContext. unfold_js.
    cbn [contexts on_close set_contexts].
    rewrite map_get_delete_other by exact Hk. rewrite Hget. reflexivity.
  - intros w c s' [_ Hc] H.
    apply getOrCreateContext_fresh in H; [|apply map_get_delete_same].
    destruct H as (Hr & _). cbn in Hr.
    intros Hin. specialize (Hc _ Hin). lia.
Qed.

Lemma close_event_removes_one_session_witness :
  let s := snd (getOrCreateContexts [(quiet, lit "u1"); (quiet, lit "u2")]
                                    new_server) in
  getOrCreateContext launch_rejects (lit "u2") (on_close (lit "u1") s)
  = (Returns 2%nat, on_close (lit "u1") s).
Proof.
  intro s.
  apply (proj1 (proj2 (proj2 (close_event_removes_one_session (lit "u1") s)))).
  - discriminate.
  - reflexivity.
Defined.

(** ** The engine and the number of results *)

Lemma lower_unit_letter (c l : N) :
  (97 <= l <= 122)%N -> (lower_unit c = l <-> same_letter c l = true).
Proof.
  intros Hl. unfold lower_unit, same_letter.
  rewrite orb_true_iff, !N.eqb_eq.
  destruct ((65 <=? c) && (c <=? 90))%N eqn:E.
  - apply andb_true_iff in E. destruct E as [E1 E2].
    apply N.leb_le in E1, E2. lia.
  - apply andb_false_iff in E. destruct E as [E|E]; apply N.leb_gt in E; lia.
Qed.

(** X10.  The engine is Baidu exactly when the option is the word
    [baidu] with each letter in either case.  Then [search] does what it
    does for ['baidu']: it fetches the Baidu address of the query and
    returns the front of what the Baidu parser reads in that page. *)
Theorem baidu_engine_in_any_case
        (w : world) (query : jsstring) (o : options) (s : LocalSearchServer) :
  (is_baidu (merge query o) = true <->
   exists b a i d u,
     engine (merge query o) = [b; a; i; d; u] /\
     same_letter b 98 = true /\ same_letter a 97 = true /\
     same_letter i 105 = true /\ same_letter d 100 = true /\
     same_letter u 117 = true) /\
  (is_baidu (merge query o) = true ->
   search w query o s = search w query (with_engine (lit "baidu") o) s /\
   forall r s', search w query o s = (Returns r, s') ->
     exists q html,
       encodeURIComponent query = Some q /\
       w_content w (baidu_prefix ++ q) = inl html /\
       r = mkResponse query (slice0 (max_results (merge query o))
                                    (parseBaiduSearchResults html))).
Proof.
  split.
  - unfold is_baidu. rewrite eqb_eq. generalize (engine (merge query o)).
    intros e. split.
    + intros H. destruct e as [|b [|a [|i [|d [|u [|x e]]]]]]; try discriminate.
      inversion H as [[Hb Ha Hi Hd Hu]].
      exists b, a, i, d, u. split; [reflexivity|].
      repeat split; apply lower_unit_letter; (lia || assumption).
    + intros (b & a & i & d & u & -> & Hb & Ha & Hi & Hd & Hu).
      apply lower_unit_letter in Hb, Ha, Hi, Hd, Hu; try lia.
      cbn. rewrite Hb, Ha, Hi, Hd, Hu. reflexivity.
  - intros Hb. rewrite !search_unfold. unfold address, extract.
    assert (Hb' : is_baidu (merge query (with_engine (lit "baidu") o)) = true)
      by reflexivity.
    rewrite Hb, Hb'.
    change (uid (merge query (with_engine (lit "baidu") o)))
      with (uid (merge query o)).
    change (max_results (merge query (with_engine (lit "baidu") o)))
      with (max_results (merge query o)).
    split; [reflexivity|].
    destruct (encodeURIComponent query) as [q|]; [|discriminate].
    destruct (openUrlInSearchWindow w (uid (merge query o))
                                    (baidu_prefix ++ q) s)
      as [[html|e|] s1] eqn:E; try discriminate.
    intros r s' H. inversion H; subst. exists q, html.
    apply openUrlInSearchWindow_returns in E. auto.
Qed.

Lemma baidu_engine_in_any_case_witness :
  let o := mkOptions None None (Some (lit "BaiDu")) in
  search quiet (lit "q") o new_server
  = search quiet (lit "q") (with_engine (lit "baidu") o) new_server.
Proof.
  intro o.
  apply (proj2 (baidu_engine_in_any_case quiet (lit "q") o new_server)).
  reflexivity.
Defined.

Lemma slice0_negative {A} (n : Z) (a : list A) :
  (n < 0)%Z ->
  slice0 n a = firstn (List.length a - Z.to_nat (- n)) a /\
  List.length (slice0 n a) = (List.length a - Z.to_nat (- n))%nat.
Proof.
  intros Hn. unfold slice0.
  destruct (n <? 0)%Z eqn:E; [|apply Z.ltb_ge in E; lia].
  assert (Hk : Z.to_nat (Z.max (Z.of_nat (List.length a) + n) 0)
               = (List.length a - Z.to_nat (- n))%nat) by lia.
  rewrite Hk. split; [reflexivity|].
  rewrite length_firstn. lia.
Qed.

(** X11.  With a negative [max_results] [-k], a [search] that returns
    gives the results of the parser without the last [k] of them (none
    when there are at most [k]): [slice(0, -k)] counts from the end. *)
Theorem negative_max_results_drops_from_the_end
        (w : world) (query : jsstring) (o : options)
        (s s' : LocalSearchServer) (r : SearchResponse) :
  (max_results (merge query o) < 0)%Z ->
  search w query o s = (Returns r, s') ->
  exists html,
    page_of w query o = Some html /\
    resp_results r
    = firstn (List.length (extract (merge query o) html)
              - Z.to_nat (- max_results (merge query o)))
             (extract (merge query o) html) /\
    List.length (resp_results r)
    = (List.length (extract (merge query o) html)
       - Z.to_nat (- max_results (merge query o)))%nat.
Proof.
  intros Hn H. rewrite search_unfold in H. unfold page_of.
  destruct (encodeURIComponent query) as [q|]; [|discriminate].
  destruct (openUrlInSearchWindow _ _ _ s) as [[html|e|] s1] eqn:E;
    try discriminate.
  apply openUrlInSearchWindow_returns in E. rewrite E.
  cbn in H. inversion H; subst; clear H. cbn [resp_results].
  exists html. split; [reflexivity|]. apply slice0_negative, Hn.
Qed.

Lemma negative_max_results_drops_from_the_end_witness :
  let o := mkOptions None (Some (-1)%Z) None in
  exists r s',
    search (serves two_entries) (lit "q") o new_server = (Returns r, s') /\
    List.length (resp_results r) = 1%nat.
Proof.
  intro o.
  destruct (search (serves two_entries) (lit "q") o new_server)
    as [out s'] eqn:E.
  assert (Ho : exists r, out = Returns r)
    by (vm_compute in E; inversion E; eauto).
  destruct Ho as [r ->]. exists r, s'. split; [reflexivity|].
  destruct (@negative_max_results_drops_from_the_end
              (serves two_entries) (lit "q") o new_server s' r)
    as (html & Hp & _ & Hl).
  - reflexivity.
  - exact E.
  - vm_compute in Hp. inversion Hp; subst html. exact Hl.
Defined.

(** ** The slot counter *)

Lemma act_lost_slots (sys : system) (a : action) :
  (lost_slots sys <= lost_slots (act sys a))%Z /\
  (0 <= count holds_slot (calls sys) <= activePages (server sys) ->
   0 <= count holds_slot (calls (act sys a))
     <= activePages (server (act sys a)))%Z.
Proof.
  unfold lost_slots. destruct sys as [s cs].
  destruct a as [w q o|i|uid|]; cbn [act server calls].
  - rewrite count_app. cbn [count]. rewrite start_holds_nothing. lia.
  - pose proof (resume_at_slots i cs s) as H.
    pose proof (open_pages_hold_slots (snd (resume_at i s cs))) as H0.
    destruct (resume_at i s cs) as [s' cs']. cbn [fst snd server calls] in *. lia.
  - cbn. lia.
  - cbn. lia.
Qed.

(** X12.  Under every schedule of overlapping [search] calls and events,
    from a new instance with any ceiling, [activePages] is at least the
    number of calls that hold a slot, so it is never negative; and the
    slots that are counted but held by no call never become fewer as the
    schedule goes on: what a call left behind is not given back by any
    later call or event. *)
Theorem lost_slots_never_come_back (acts more : list action) (sys : system) :
  (lost_slots (run acts sys) <= lost_slots (run (acts ++ more) sys))%Z /\
  (forall m, 0 <= count holds_slot (calls (run acts (boot m)))
               <= activePages (server (run acts (boot m))))%Z.
Proof.
  split.
  - unfold run. rewrite fold_left_app. generalize (fold_left act acts sys).
    induction more as [|a more IH]; intros sys0; cbn [fold_left]; [lia|].
    specialize (IH (act sys0 a)). pose proof (proj1 (act_lost_slots sys0 a)). lia.
  - intros m. unfold run.
    assert (H : (0 <= count holds_slot (calls (boot m))
                 <= activePages (server (boot m)))%Z) by (cbn; lia).
    revert H. generalize (boot m).
    induction acts as [|a acts IH]; intros sys0 H; cbn [fold_left]; [exact H|].
    apply IH. apply act_lost_slots, H.
Qed.

(** ** cleanup, again *)

Lemma map_delete_absent {V} (k : jsstring) (m : Map V) :
  ~ In k (map fst m) -> map_delete k m = m.
Proof.
  induction m as [|[k' v'] r IH]; cbn; [reflexivity|]. intros H.
  destruct (eqb k k') eqn:E.
  - apply eqb_eq in E. subst. tauto.
  - rewrite IH by tauto. reflexivity.
Qed.

Lemma close_each_state (w : world) (entries : Map nat) :
  forall s,
    NoDup (map fst entries) -> contexts s = entries ->
    contexts (snd (close_each w entries s)) = from_first_rejection w entries /\
    browser (snd (close_each w entries s)) = browser s /\
    activePages (snd (close_each w entries s)) = activePages s /\
    result (snd (close_each w entries s)) = result s /\
    (forall e, fst (close_each w entries s) = Throws e ->
               exists uid context rest,
                 from_first_rejection w entries = (uid, context) :: rest /\
                 w_contextClose w context = Some e) /\
    (fst (close_each w entries s) = Returns tt ->
     from_first_rejection w entries = []).
Proof.
  induction entries as [|[uid c] rest IH]; intros s Hnd Hs.
  - cbn. repeat split; auto. intros e H. discriminate.
  - cbn [close_each from_first_rejection]. unfold context_close. unfold_js.
    inversion Hnd as [|? ? Hnotin Hnd']; subst.
    destruct (w_contextClose w c) as [e0|] eqn:E; cbn.
    + repeat split; auto.
      * intros e H. inversion H; subst. eauto.
      * discriminate.
    + assert (Hs' : contexts (on_close uid s) = rest).
      { cbn. rewrite Hs. cbn. rewrite eqb_refl. apply map_delete_absent, Hnotin. }
      destruct (IH (on_close uid s) Hnd' Hs') as (H1 & H2 & H3 & H4 & H5 & H6).
      destruct (close_each w rest (on_close uid s)) as [[[]|e|] s1]; cbn in *;
        repeat split; auto.
Qed.

(** X13.  When [cleanup] throws, nothing is reset: [activePages], the
    stored response and the browser handle are as before.  The contexts
    closed so far are out of the registry, which keeps the entries from
    the first context whose [close] rejected; the error is that
    rejection, or the rejection of [browser.close] after all contexts
    were closed. *)
Theorem failed_cleanup_resets_nothing
        (w : world) (s s' : LocalSearchServer) (e : error) :
  NoDup (map fst (contexts s)) ->
  cleanup w s = (Throws e, s') ->
  activePages s' = activePages s /\
  result s' = result s /\
  browser s' = browser s /\
  contexts s' = from_first_rejection w (contexts s) /\
  ((exists uid context rest,
       contexts s' = (uid, context) :: rest /\
       w_contextClose w context = Some e) \/
   (contexts s' = [] /\ browser s <> None /\ w_browserClose w = Some e)).
Proof.
  intros Hnd. unfold cleanup. unfold_js.
  destruct (close_each_state w s Hnd eq_refl) as (H1 & H2 & H3 & H4 & H5 & H6).
  destruct (close_each w (contexts s) s) as [[[]|e0|] s1] eqn:E; cbn in *.
  - specialize (H6 eq_refl).
    destruct (browser s1) eqn:Hb; [|discriminate].
    destruct (w_browserClose w) as [e1|] eqn:Eb; cbn; [|discriminate].
    intros H. inversion H; subst.
    repeat split; try congruence. right. repeat split; congruence.
  - intros H. inversion H; subst.
    repeat split; try congruence. left.
    destruct (H5 e eq_refl) as (uid & c & rest & Hf & Hc).
    exists uid, c, rest. split; congruence.
  - discriminate.
Qed.

Lemma failed_cleanup_resets_nothing_witness :
  let s := snd (search quiet (lit "q") no_options new_server) in
  let w := mkWorld None None None (fun _ => None) None (fun _ => inl [])
                   None (fun _ => Some (Rejected 7)) None in
  exists s', cleanup w s = (Throws (Rejected 7), s') /\
             result s' = result s /\ browser s' = browser s.
Proof.
  intros s w. exists (snd (cleanup w s)). split; [reflexivity|].
  destruct (@failed_cleanup_resets_nothing w s (snd (cleanup w s)) (Rejected 7))
    as (_ & Hr & Hb & _).
  - repeat constructor. intros [].
  - reflexivity.
  - split; assumption.
Defined.

(** X14.  After a [cleanup] that returned, on an instance with a
    positive ceiling, the gate is open whatever the counter was before: a
    [search] returns as soon as its query can be encoded and the browser
    rejects nothing, and it leaves the counter at zero. *)
Theorem cleanup_reopens_the_gate
        (w w' : world) (s s1 : LocalSearchServer)
        (query q : jsstring) (o : options) :
  cleanup w s = (Returns tt, s1) ->
  (0 < maxConcurrentPages s)%Z ->
  encodeURIComponent query = Some q ->
  rejections w' (address (merge query o) q) = [] ->
  exists r s2, search w' query o s1 = (Returns r, s2) /\
               activePages s2 = 0%Z.
Proof.
  intros Hc Hm Hq Hr. apply cleanup_returns in Hc.
  destruct Hc as (_ & _ & Ha & _ & Hmax).
  rewrite search_unfold, Hq.
  destruct (@openUrlInSearchWindow_runs w' (uid (merge query o))
              (address (merge query o) q) s1 Hr ltac:(lia)) as [html Hh].
  destruct (openUrlInSearchWindow w' (uid (merge query o))
                                  (address (merge query o) q) s1)
    as [out s2] eqn:E.
  cbn in Hh. subst out. apply openUrl_returns_state in E.
  destruct E as (Hs2 & _). eexists. eexists. split; [reflexivity|].
  cbn. congruence.
Qed.

Lemma cleanup_reopens_the_gate_witness :
  let s := snd (searches [(launch_rejects, lit "a", no_options)]
                         (new_server_with 1)) in
  activePages s = 1%Z /\
  exists s1, cleanup quiet s = (Returns tt, s1) /\
  exists r s2, search quiet (lit "q") no_options s1 = (Returns r, s2) /\
               activePages s2 = 0%Z.
Proof.
  intro s. split; [reflexivity|].
  exists (snd (cleanup quiet s)). split; [reflexivity|].
  apply (@cleanup_reopens_the_gate quiet quiet s (snd (cleanup quiet s))
           (lit "q") (lit "q") no_options); reflexivity.
Defined.

Lemma search_at_full_gate (w : world) (query : jsstring) (o : options)
      (s : LocalSearchServer) :
  (maxConcurrentPages s <= activePages s)%Z ->
  returned (fst (search w query o s)) = false /\
  snd (search w query o s) = s /\
  (forall q, encodeURIComponent query = Some q ->
             search w query o s = (Waits, s)).
Proof.
  intros Hfull. rewrite search_unfold.
  destruct (encodeURIComponent query) as [q|]; [|cbn; split; [|split]; auto; discriminate].
  assert (E : openUrlInSearchWindow w (uid (merge query o))
                (address (merge query o) q) s = (Waits, s)).
  { unfold openUrlInSearchWindow, waitForPageSlot. unfold_js.
    apply Z.geb_le in Hfull. rewrite Hfull. reflexivity. }
  rewrite E. cbn. auto.
Qed.

Lemma search_launch_fails (w : world) (query : jsstring) (o : options)
      (s : LocalSearchServer) :
  browser s = None -> contexts s = [] ->
  (activePages s < maxConcurrentPages s)%Z ->
  launch_fails (w, query, o) = true ->
  returned (fst (search w query o s)) = false /\
  snd (search w query o s) = set_activePages (activePages s + 1) s.
Proof.
  intros Hb Hc Hlt Hl. unfold launch_fails in Hl.
  apply andb_true_iff in Hl. destruct Hl as [Hl Hq].
  rewrite search_unfold.
  destruct (encodeURIComponent query) as [q|]; [|discriminate].
  destruct w as [l nc np g wt ct pcl cc bc], s as [b cs m a res al].
  cbn [browser contexts activePages maxConcurrentPages w_launch is_some] in *.
  subst b cs. destruct l as [e|]; [|discriminate].
  unfold_methods; cbn.
  destruct (a >=? m)%Z eqn:E; [apply geb_true in E; exfalso; lia|].
  cbn. auto.
Qed.

Lemma searches_launch_fail (cs : list (world * jsstring * options)) :
  forall s,
    browser s = None -> contexts s = [] ->
    (activePages s + Z.of_nat (List.length cs) <= maxConcurrentPages s)%Z ->
    forallb launch_fails cs = true ->
    forallb (fun out => negb (returned out)) (fst (searches cs s)) = true /\
    browser (snd (searches cs s)) = None /\
    contexts (snd (searches cs s)) = [] /\
    maxConcurrentPages (snd (searches cs s)) = maxConcurrentPages s /\
    activePages (snd (searches cs s))
    = (activePages s + Z.of_nat (List.length cs))%Z.
Proof.
  induction cs as [|[[w query] o] rest IH]; intros s Hb Hc Hlen Hall.
  - cbn [searches fst snd forallb List.length]. repeat split; auto. lia.
  - cbn [forallb] in Hall. apply andb_true_iff in Hall.
    destruct Hall as [H1 Hrest].
    cbn [List.length] in Hlen. cbn [searches].
    destruct (@search_launch_fails w query o s Hb Hc ltac:(lia) H1) as [Hr Hs].
    destruct (search w query o s) as [out s1]. cbn [fst snd] in Hr, Hs.
    assert (Hb1 : browser s1 = None) by (subst s1; exact Hb).
    assert (Hc1 : contexts s1 = []) by (subst s1; exact Hc).
    assert (Hm1 : maxConcurrentPages s1 = maxConcurrentPages s)
      by (subst s1; reflexivity).
    assert (Ha1 : activePages s1 = (activePages s + 1)%Z)
      by (subst s1; reflexivity).
    clear Hs.
    destruct (IH s1 Hb1 Hc1 ltac:(lia) Hrest) as (IH1 & IH2 & IH3 & IH4 & IH5).
    destruct (searches rest s1) as [outs s2]. cbn [fst snd] in *.
    cbn [forallb List.length]. rewrite Hr. repeat split; auto; lia.
Qed.

(** X15.  On a new instance with ceiling [m], after [m] calls of
    [search] during each of which [chromium.launch] rejected, none of
    which returned, [activePages] is [m]: no later [search] returns,
    whatever the browser does, and none changes the instance. *)
Theorem failed_launches_close_the_gate
        (m : Z) (cs : list (world * jsstring * options)) :
  Z.of_nat (List.length cs) = m ->
  forallb launch_fails cs = true ->
  forallb (fun out => negb (returned out))
          (fst (searches cs (new_server_with m))) = true /\
  activePages (snd (searches cs (new_server_with m))) = m /\
  (forall w query o,
      returned (fst (search w query o (snd (searches cs (new_server_with m)))))
      = false /\
      snd (search w query o (snd (searches cs (new_server_with m))))
      = snd (searches cs (new_server_with m))).
Proof.
  intros Hlen Hall.
  destruct (@searches_launch_fail cs (new_server_with m) eq_refl eq_refl
              ltac:(cbn; lia) Hall) as (Hout & _ & _ & Hm & Ha).
  cbn [new_server_with activePages maxConcurrentPages] in Hm, Ha.
  split; [exact Hout|]. split; [lia|].
  intros w query o.
  destruct (@search_at_full_gate w query o (snd (searches cs (new_server_with m))))
    as (H1 & H2 & _); [lia | auto].
Qed.

Lemma failed_launches_close_the_gate_witness :
  let cs := [(launch_rejects, lit "a", no_options);
             (launch_rejects, lit "b", no_options)] in
  activePages (snd (searches cs (new_server_with 2))) = 2%Z /\
  fst (search quiet (lit "q") no_options (snd (searches cs (new_server_with 2))))
  = Waits.
Proof.
  intro cs.
  destruct (@failed_launches_close_the_gate 2 cs eq_refl eq_refl)
    as (_ & Ha & _).
  split; [exact Ha | reflexivity].
Defined.

(** ** The PATH helpers *)

Lemma split_from_nonempty (sep : N) (s cur : jsstring) : split_from sep cur s <> [].
Proof. revert cur. induction s as [|c r IH]; intros cur; cbn; [discriminate|].
  destruct (c =? sep)%N; [discriminate | apply IH]. Qed.

Lemma join_cons (sep p : jsstring) (rest : list jsstring) :
  rest <> [] -> join sep (p :: rest) = p ++ sep ++ join sep rest.
Proof. destruct rest; [congruence | reflexivity]. Qed.

Lemma join_split_from (sep : N) (s : jsstring) :
  forall cur, join [sep] (split_from sep cur s) = rev cur ++ s.
Proof.
  induction s as [|c r IH]; intros cur; cbn [split_from].
  - cbn. symmetry. apply app_nil_r.
  - destruct (c =? sep)%N eqn:E.
    + apply N.eqb_eq in E. subst c.
      rewrite join_cons by apply split_from_nonempty.
      rewrite IH. reflexivity.
    + rewrite IH. cbn [rev]. rewrite <- app_assoc. reflexivity.
Qed.

Lemma split_from_piece (sep : N) (p : jsstring) :
  ~ In sep p ->
  forall cur rest, split_from sep cur (p ++ rest)
                   = split_from sep (rev p ++ cur) rest.
Proof.
  induction p as [|c r IH]; intros Hno cur rest; [reflexivity|].
  cbn [app split_from].
  destruct (c =? sep)%N eqn:E; [apply N.eqb_eq in E; subst; cbn in Hno; tauto|].
  rewrite IH by (cbn in Hno; tauto). cbn [rev]. rewrite <- app_assoc. reflexivity.
Qed.

Lemma split_join (sep : N) (parts : list jsstring) :
  parts <> [] -> Forall (fun p => ~ In sep p) parts ->
  split sep (join [sep] parts) = parts.
Proof.
  unfold split. induction parts as [|p rest IH]; intros Hne Hno; [congruence|].
  inversion Hno as [|? ? Hp Hrest]; subst.
  destruct rest as [|p' rest'].
  - cbn [join]. rewrite <- (app_nil_r p) at 1.
    rewrite split_from_piece by exact Hp. cbn. rewrite app_nil_r, rev_involutive.
    reflexivity.
  - rewrite join_cons by discriminate.
    rewrite split_from_piece by exact Hp. cbn [app split_from].
    rewrite N.eqb_refl, app_nil_r, rev_involutive.
    rewrite IH by (discriminate || assumption). reflexivity.
Qed.

Lemma split_from_pieces (sep : N) (s : jsstring) :
  forall cur, ~ In sep cur ->
              Forall (fun p => ~ In sep p) (split_from sep cur s).
Proof.
  induction s as [|c r IH]; intros cur Hcur; cbn [split_from].
  - constructor; [|constructor]. rewrite <- in_rev. exact Hcur.
  - destruct (c =? sep)%N eqn:E.
    + constructor; [rewrite <- in_rev; exact Hcur|]. apply IH. intros [].
    + apply IH. cbn. apply N.eqb_neq in E. intros [H|H]; [congruence | auto].
Qed.

Lemma existsb_eqb (x : jsstring) (l : list jsstring) :
  existsb (eqb x) l = true <-> In x l.
Proof.
  rewrite existsb_exists. split.
  - intros (y & Hy & He). apply eqb_eq in He. subst. exact Hy.
  - intros H. exists x. split; [exact H | apply eqb_refl].
Qed.

Lemma set_add_spec (x : jsstring) (set : StringSet) :
  (forall y, In y (set_add x set) <-> y = x \/ In y set) /\
  (NoDup set -> NoDup (set_add x set)) /\
  (In x set -> set_add x set = set) /\
  (~ In x set -> set_add x set = set ++ [x]) /\
  (exists tail, set_add x set = set ++ tail).
Proof.
  unfold set_add. destruct (existsb (eqb x) set) eqn:E.
  - apply existsb_eqb in E.
    split; [intros y; split; [auto | intros [->|H]; auto]|].
    split; [auto|]. split; [auto|]. split; [tauto|].
    exists []. symmetry. apply app_nil_r.
  - assert (Hn : ~ In x set).
    { intros H. apply existsb_eqb in H. congruence. }
    split; [intros y; rewrite in_app_iff; cbn; intuition congruence|].
    split.
    { intros Hnd. apply NoDup_app; [exact Hnd | repeat constructor; intros [] |].
      intros a Ha [<-|[]]. auto. }
    split; [tauto|]. split; [auto|]. eauto.
Qed.

Lemma set_add_all_spec (a : list jsstring) :
  forall set,
    (forall y, In y (set_add_all a set) <-> In y a \/ In y set) /\
    (NoDup set -> NoDup (set_add_all a set)) /\
    (exists tail, set_add_all a set = set ++ tail) /\
    (forall P : jsstring -> Prop,
        Forall P a -> Forall P set -> Forall P (set_add_all a set)).
Proof.
  unfold set_add_all. induction a as [|x a IH]; intros set; cbn [fold_left].
  - split; [intros y; cbn; tauto|]. split; [auto|].
    split; [exists []; symmetry; apply app_nil_r | auto].
  - destruct (IH (set_add x set)) as (Hin & Hnd & (tail & Ht) & HP).
    destruct (set_add_spec x set) as (Sin & Snd & _ & _ & (t0 & St)).
    split; [|split; [|split]].
    + intros y. rewrite Hin, Sin. cbn. intuition congruence.
    + auto.
    + exists (t0 ++ tail). rewrite Ht, St, app_assoc. reflexivity.
    + intros P Ha Hs. inversion Ha; subst. apply HP; [assumption|].
      apply Forall_forall. intros y Hy. apply Sin in Hy.
      destruct Hy as [->|Hy]; [assumption|].
      rewrite Forall_forall in Hs. auto.
Qed.

Lemma set_add_all_nodup_same (a : list jsstring) :
  forall set, (forall y, In y a -> In y set) -> set_add_all a set = set.
Proof.
  unfold set_add_all. induction a as [|x a IH]; intros set H; cbn [fold_left];
    [reflexivity|].
  destruct (set_add_spec x set) as (_ & _ & Hsame & _).
  rewrite Hsame by (apply H; left; reflexivity).
  apply IH. intros y Hy. apply H. right. exact Hy.
Qed.

Lemma set_add_all_fresh (a : list jsstring) :
  forall set, NoDup (set ++ a) -> set_add_all a set = set ++ a.
Proof.
  unfold set_add_all. induction a as [|x a IH]; intros set H; cbn [fold_left].
  - symmetry. apply app_nil_r.
  - destruct (set_add_spec x set) as (_ & _ & _ & Hnew & _).
    assert (Hx : ~ In x set).
    { intros Hin. apply NoDup_remove_2 in H. apply H.
      apply in_app_iff. auto. }
    rewrite Hnew by exact Hx.
    rewrite IH; rewrite <- app_assoc; cbn; [reflexivity | exact H].
Qed.

Lemma not_in_units (sep : N) (p : jsstring) :
  existsb (N.eqb sep) p = false -> ~ In sep p.
Proof.
  intros H Hin. assert (E : existsb (N.eqb sep) p = true).
  { apply existsb_exists. exists sep. split; [exact Hin | apply N.eqb_refl]. }
  congruence.
Qed.

Lemma nodup_checked (l : list jsstring) :
  nodup (list_eq_dec N.eq_dec) l = l -> NoDup l.
Proof. intros <-. apply NoDup_nodup. Qed.

Lemma customPaths_ok (platform : jsstring) :
  NoDup (customPaths platform) /\
  Forall (fun p => ~ In (delimiter platform) p) (customPaths platform).
Proof.
  unfold customPaths, delimiter.
  destruct (eqb platform (lit "darwin")) eqn:Ed.
  - apply eqb_eq in Ed. subst platform. split.
    + apply nodup_checked. vm_compute. reflexivity.
    + repeat (apply Forall_cons; [apply not_in_units; vm_compute; reflexivity|]).
      apply Forall_nil.
  - destruct (eqb platform (lit "win32")) eqn:Ew.
    + split.
      * apply nodup_checked. vm_compute. reflexivity.
      * repeat (apply Forall_cons; [apply not_in_units; vm_compute; reflexivity|]).
        apply Forall_nil.
    + split; constructor.
Qed.

Lemma split_pieces (sep : N) (s : jsstring) :
  split sep s <> [] /\ Forall (fun p => ~ In sep p) (split sep s) /\
  join [sep] (split sep s) = s.
Proof.
  unfold split. split; [apply split_from_nonempty|]. split.
  - apply split_from_pieces. intros [].
  - apply (join_split_from sep s []).
Qed.

(** What both helpers do with PATH: the set [extra] filled up with the
    entries, written back. *)
Lemma rewritten_path (d : N) (path : jsstring) (front : StringSet) (dir : list jsstring) :
  NoDup front -> Forall (fun p => ~ In d p) front ->
  Forall (fun p => ~ In d p) dir ->
  let entries := set_add_all dir (set_add_all (split d path) front) in
  split d (join [d] entries) = entries /\
  NoDup entries /\
  (forall x, In x entries <-> In x front \/ In x (split d path) \/ In x dir) /\
  (exists tail, entries = front ++ tail) /\
  set_add_all dir (set_add_all entries front) = entries.
Proof.
  intros Hnd Hfront Hdir entries.
  destruct (split_pieces d path) as (Hne & Hpieces & _).
  destruct (set_add_all_spec (split d path) front) as (Hin1 & Hnd1 & (t1 & Ht1) & HP1).
  destruct (set_add_all_spec dir (set_add_all (split d path) front))
    as (Hin2 & Hnd2 & (t2 & Ht2) & HP2).
  fold entries in Hin2, Hnd2, Ht2, HP2.
  assert (Hall : forall x, In x entries <-> In x front \/ In x (split d path) \/ In x dir).
  { intros x. rewrite Hin2, Hin1. tauto. }
  split; [|split; [|split; [|split]]].
  - apply split_join.
    + destruct (split d path) as [|x0 l0] eqn:E; [congruence|].
      intros He. assert (Hx : In x0 entries) by (apply Hall; cbn; auto).
      rewrite He in Hx. exact Hx.
    + apply HP2; [exact Hdir|]. apply HP1; assumption.
  - auto.
  - exact Hall.
  - exists (t1 ++ t2). rewrite Ht2, Ht1, app_assoc. reflexivity.
  - destruct (set_add_all_spec (split d path) front) as (_ & _ & _ & _).
    assert (He : entries = front ++ (t1 ++ t2))
      by (rewrite Ht2, Ht1, app_assoc; reflexivity).
    assert (Hfill : set_add_all entries front = entries).
    { rewrite He at 1. unfold set_add_all. rewrite fold_left_app.
      fold (set_add_all front front). fold (set_add_all (t1 ++ t2) (set_add_all front front)).
      rewrite (set_add_all_nodup_same front front) by auto.
      rewrite set_add_all_fresh; [symmetry; exact He|].
      rewrite <- He. auto. }
    rewrite Hfill. apply set_add_all_nodup_same.
    intros y Hy. apply Hall. auto.
Qed.

(** X16.  [addToEnvPath(dir)] throws when PATH is undefined.  Otherwise,
    for a [dir] without the delimiter, the entries of the new PATH are
    those of the old one and [dir], each once; [dir] comes last when it
    is new; a PATH without repeated entries that has [dir] is not
    changed; and a second [addToEnvPath(dir)] changes nothing. *)
Theorem addToEnvPath_adds_once (dir : jsstring) (p : process) :
  (PATH p = None -> addToEnvPath dir p = None) /\
  (forall path,
      PATH p = Some path -> ~ In (delimiter (platform p)) dir ->
      exists path',
        addToEnvPath dir p = Some (mkProcess (platform p) (Some path')) /\
        NoDup (split (delimiter (platform p)) path') /\
        (forall x, In x (split (delimiter (platform p)) path') <->
                   x = dir \/ In x (split (delimiter (platform p)) path)) /\
        (~ In dir (split (delimiter (platform p)) path) ->
         split (delimiter (platform p)) path'
         = set_add_all (split (delimiter (platform p)) path) [] ++ [dir]) /\
        (NoDup (split (delimiter (platform p)) path) ->
         In dir (split (delimiter (platform p)) path) -> path' = path) /\
        addToEnvPath dir (mkProcess (platform p) (Some path'))
        = Some (mkProcess (platform p) (Some path'))).
Proof.
  split; [intros H; unfold addToEnvPath; rewrite H; reflexivity|].
  intros path Hp Hdir. unfold addToEnvPath. rewrite Hp. cbn [platform PATH].
  set (d := delimiter (platform p)) in *.
  assert (Hd1 : Forall (fun q => ~ In d q) [dir]) by (constructor; auto).
  destruct (@rewritten_path d path [] [dir] (NoDup_nil _) (Forall_nil _) Hd1)
    as (Hsplit & Hnd & Hin & _ & Hidem).
  change (set_add_all [dir] (set_add_all (split d path) []))
    with (set_add dir (set_add_all (split d path) [])) in *.
  set (entries := set_add dir (set_add_all (split d path) [])) in *.
  exists (join [d] entries). split; [reflexivity|].
  rewrite Hsplit. split; [exact Hnd|]. split; [|split; [|split]].
  - intros x. rewrite Hin. cbn. intuition congruence.
  - intros Hnew. unfold entries.
    destruct (set_add_spec dir (set_add_all (split d path) [])) as (_ & _ & _ & Hn & _).
    apply Hn. intros H.
    apply (proj1 (set_add_all_spec (split d path) [])) in H. cbn in H. tauto.
  - intros Hnd0 Hin0. unfold entries.
    rewrite set_add_all_fresh by exact Hnd0. cbn [app].
    destruct (set_add_spec dir (split d path)) as (_ & _ & Hsame & _).
    rewrite Hsame by exact Hin0. apply split_pieces.
  - change (set_add dir (set_add_all entries []))
      with (set_add_all [dir] (set_add_all entries [])).
    rewrite Hidem. reflexivity.
Qed.

Lemma addToEnvPath_adds_once_witness :
  addToEnvPath (lit "/opt/docker") linux_process
  = Some (mkProcess (lit "linux") (Some (lit "/usr/bin:/bin:/opt/docker"))) /\
  exists path',
    addToEnvPath (lit "/opt/docker") linux_process
    = Some (mkProcess (lit "linux") (Some path')) /\
    NoDup (split 58 path').
Proof.
  split; [reflexivity|].
  destruct (proj2 (addToEnvPath_adds_once (lit "/opt/docker") linux_process)
                  (lit "/usr/bin:/bin:/usr/bin") eq_refl)
    as (path' & Hp & Hnd & _).
  - apply not_in_units. reflexivity.
  - exists path'. split; [exact Hp | exact Hnd].
Defined.

(** X17.  [setupInitialDockerPathEnv] throws when PATH is undefined.
    Otherwise the entries of the new PATH are the paths of the platform
    (six on darwin, one on win32, none elsewhere) followed by the entries
    of the old PATH that are not among them, each once; where the platform
    has no paths of its own a PATH without repeated entries is not
    changed; and a second call changes nothing. *)
Theorem setupInitialDockerPathEnv_puts_custom_paths_first (p : process) :
  (PATH p = None -> setupInitialDockerPathEnv p = None) /\
  (forall path,
      PATH p = Some path ->
      exists path',
        setupInitialDockerPathEnv p = Some (mkProcess (platform p) (Some path')) /\
        NoDup (split (delimiter (platform p)) path') /\
        (forall x, In x (split (delimiter (platform p)) path') <->
                   In x (customPaths (platform p))
                   \/ In x (split (delimiter (platform p)) path)) /\
        (exists tail, split (delimiter (platform p)) path'
                      = customPaths (platform p) ++ tail) /\
        (customPaths (platform p) = [] ->
         NoDup (split (delimiter (platform p)) path) -> path' = path) /\
        setupInitialDockerPathEnv (mkProcess (platform p) (Some path'))
        = Some (mkProcess (platform p) (Some path'))).
Proof.
  split; [intros H; unfold setupInitialDockerPathEnv; rewrite H; reflexivity|].
  intros path Hp. unfold setupInitialDockerPathEnv. rewrite Hp.
  cbn [platform PATH].
  set (d := delimiter (platform p)) in *.
  destruct (customPaths_ok (platform p)) as [Hcn Hcd]. fold d in Hcd.
  destruct (@rewritten_path d path (customPaths (platform p)) [] Hcn Hcd
                            (Forall_nil _))
    as (Hsplit & Hnd & Hin & Htail & Hidem).
  set (entries := set_add_all (split d path) (customPaths (platform p))) in *.
  assert (Hsplit' : split d (join [d] entries) = entries) by exact Hsplit.
  assert (Hidem' : set_add_all entries (customPaths (platform p)) = entries)
    by exact Hidem.
  assert (Hin' : forall x, In x entries <->
                           In x (customPaths (platform p)) \/ In x (split d path)).
  { intros x. rewrite (Hin x). cbn. tauto. }
  assert (Htail' : exists tail, entries = customPaths (platform p) ++ tail)
    by exact Htail.
  exists (join [d] entries). split; [reflexivity|].
  rewrite Hsplit'. split; [exact Hnd|]. split; [exact Hin'|].
  split; [exact Htail'|]. split.
  - intros Hc Hnd0. unfold entries. rewrite Hc.
    rewrite set_add_all_fresh by exact Hnd0. apply split_pieces.
  - rewrite Hidem'. reflexivity.
Qed.

Lemma setupInitialDockerPathEnv_puts_custom_paths_first_witness :
  setupInitialDockerPathEnv darwin_process
  = Some (mkProcess
            (lit "darwin")
            (Some (lit "/usr/bin:/bin:/usr/sbin:/sbin:/Applications/Docker.app/Contents/Resources/bin:/opt/homebrew/bin:/usr/local/bin"))) /\
  exists path',
    setupInitialDockerPathEnv darwin_process
    = Some (mkProcess (lit "darwin") (Some path')) /\
    NoDup (split 58 path').
Proof.
  split; [reflexivity|].
  destruct (proj2 (setupInitialDockerPathEnv_puts_custom_paths_first
                     darwin_process)
                  (lit "/usr/local/bin:/bin") eq_refl)
    as (path' & Hp & Hnd & _).
  exists path'. split; [exact Hp | exact Hnd].
Defined.
